(** * BondKeeper2: the service worker [static/service-worker.js]

    A shallow embedding of the five event handlers of the worker (install,
    activate, fetch, push, notificationclick) and the properties its
    specification states about them.

    The worker is a thin layer over host APIs.  The host is modelled as
    follows.
    - A URL is the record the host's parser produces.  A cache is the list
      of request-response items in the order they were put.  A request
      matches an item when its method is GET, its URL is the URL of the
      item's request up to the fragment, and it has the same value as the
      item's request for every header that the item's response names in
      [Vary].
    - [Cache.put] refuses a request that is not http(s) or not GET, a
      response with status 206 and a response with [Vary: *]; otherwise it
      removes the items its request matches and appends the new item.
      [Cache.addAll] refuses the same, a network failure and a status
      outside the 200 range, and stores all or nothing.
    - CacheStorage ([caches]) is the list of named caches in creation
      order; [caches.match] answers with the first match, cache by cache.
    - The network is a function from requests to an optional response
      ([None]: [fetch] rejects); it is an argument of every event, so it may
      change from one event to the next.
    - JavaScript values are a small inductive type; numbers are binary64
      floats.
    - A promise chain that an event awaits ([e.waitUntil], [e.respondWith])
      is run to completion inside the event; a rejected promise and a thrown
      exception are both the [inl] result of a computation.  The put that
      the fetch handler starts and does not await is a task of its own: the
      handler records that it has started it, and the task runs at any later
      moment, on the storage as it is then.
    - Every call of a host API that the outside can observe is recorded in
      the log of the computation. *)

From Stdlib Require Import PrimFloat.
From stdpp Require Import base option list gmap strings fin_maps.

Local Open Scope string_scope.

#[local] Set Warnings "-register-all,-clear-no-such-hyp".

(** ** JavaScript values *)

Inductive JSValue : Type :=
| JUndefined
| JNull
| JBool (b : bool)
| JNum (x : float)
| JStr (s : string)
| JArr (items : list JSValue)
| JObj (props : list (string * JSValue)).

Inductive Exn : Type :=
| TypeError
| SyntaxError
| InvalidStateError.

(** [ToBoolean]: [undefined], [null], [false], [0], [-0], [NaN] and the empty
    string are falsy, everything else (every object) is truthy. *)
Definition truthy (v : JSValue) : bool :=
  match v with
  | JUndefined | JNull => false
  | JBool b => b
  | JNum x => negb (PrimFloat.eqb x 0%float) && PrimFloat.eqb x x
  | JStr s => negb (String.eqb s "")
  | JArr _ | JObj _ => true
  end.

Definition falsy (v : JSValue) : bool := negb (truthy v).

(** [a || b] *)
Definition js_or (a b : JSValue) : JSValue := if truthy a then a else b.

Fixpoint own_prop (k : string) (props : list (string * JSValue)) : option JSValue :=
  match props with
  | [] => None
  | (k', v) :: rest => if String.eqb k k' then Some v else own_prop k rest
  end.

(** [v.k], for the property names the worker reads ([title], [body], [url]):
    none of them is defined on a prototype, so only own properties of an
    object answer; reading a property of [null] or [undefined] throws. *)
Definition get_prop (v : JSValue) (k : string) : Exn + JSValue :=
  match v with
  | JUndefined | JNull => inl TypeError
  | JObj props => inr (default JUndefined (own_prop k props))
  | JBool _ | JNum _ | JStr _ | JArr _ => inr JUndefined
  end.

(** [v?.k] *)
Definition get_prop_opt (v : JSValue) (k : string) : Exn + JSValue :=
  match v with
  | JUndefined | JNull => inr JUndefined
  | _ => get_prop v k
  end.

(** [s === v] for a string [s] *)
Definition strict_eq_string (s : string) (v : JSValue) : bool :=
  match v with
  | JStr t => String.eqb s t
  | _ => false
  end.

(** ** URLs, requests and responses *)

(** A parsed URL; [path] holds the path and the query. *)
Record URL : Type := mkURL {
  scheme : string;
  host : string;
  path : string;
  fragment : option string
}.

#[export] Instance URL_eq_dec : EqDecision URL.
Proof. solve_decision. Defined.

#[export] Instance URL_countable : Countable URL :=
  inj_countable'
    (λ u, (scheme u, host u, path u, fragment u))
    (λ t, mkURL t.1.1.1 t.1.1.2 t.1.2 t.2)
    (λ u, match u with mkURL _ _ _ _ => eq_refl end).

(** The URL with the exclude-fragment flag set. *)
Definition without_fragment (u : URL) : URL :=
  mkURL (scheme u) (host u) (path u) None.

Definition is_http (u : URL) : bool :=
  String.eqb (scheme u) "http" || String.eqb (scheme u) "https".

(** Header names are in lower case, as the host normalises them. *)
Record Request : Type := mkRequest {
  method : string;
  url : URL;
  headers : list (string * string)
}.

(** [vary] lists the field names of the response's [Vary] header. *)
Record Response : Type := mkResponse {
  status : Z;
  body : string;
  vary : list string
}.

#[export] Instance Request_eq_dec : EqDecision Request.
Proof. solve_decision. Defined.

#[export] Instance Response_eq_dec : EqDecision Response.
Proof. solve_decision. Defined.

(** [Response.ok] *)
Definition ok (r : Response) : bool := (200 <=? status r)%Z && (status r <=? 299)%Z.

Definition Network : Type := Request → option Response.

Fixpoint header (name : string) (hs : list (string * string)) : option string :=
  match hs with
  | [] => None
  | (n, v) :: rest => if String.eqb name n then Some v else header name rest
  end.

(** ** Caches *)

(** The request response list of a cache, oldest item first. *)
Abbreviation Cache := (list (Request * Response)).

(** The [Vary] check of a query against a cached item. *)
Definition vary_agrees (query cached : Request) (r : Response) : bool :=
  forallb (λ f, negb (String.eqb f "*") &&
                bool_decide (header f (headers cached) = header f (headers query)))
          (vary r).

(** "Request matches cached item", with the default options. *)
Definition matches (query : Request) (item : Request * Response) : bool :=
  String.eqb (method query) "GET" &&
  bool_decide (without_fragment (url query) = without_fragment (url item.1)) &&
  vary_agrees query item.1 item.2.

(** [c.match(request)]: the response of the first item that matches. *)
Fixpoint cache_match (query : Request) (c : Cache) : option Response :=
  match c with
  | [] => None
  | item :: rest => if matches query item then Some item.2 else cache_match query rest
  end.

(** What [c.put] and [c.addAll] refuse to store. *)
Definition put_refused (q : Request) (r : Response) : bool :=
  negb (is_http (url q)) || negb (String.eqb (method q) "GET") ||
  (status r =? 206)%Z || bool_decide ("*" ∈ vary r).

(** A put inside one cache: the items the request matches are removed and
    the new item is appended. *)
Definition replace_matching (q : Request) (r : Response) (c : Cache) : Cache :=
  (filter (λ item, matches q item = false) c ++ [(q, r)])%list.

(** No request of [items] matches [item]. *)
Definition unmatched_by (items : Cache) (item : Request * Response) : Prop :=
  existsb (λ op, matches op.1 item) items = false.

#[export] Instance unmatched_by_dec items item : Decision (unmatched_by items item).
Proof. unfold unmatched_by. apply _. Defined.

Definition CacheStorage : Type := list (string * Cache).

Fixpoint find_cache (name : string) (cs : CacheStorage) : option Cache :=
  match cs with
  | [] => None
  | (n, c) :: rest => if String.eqb name n then Some c else find_cache name rest
  end.

(** [caches.open(name)]: the cache of that name, created empty when there is
    none. *)
Definition caches_open (name : string) (cs : CacheStorage) : CacheStorage :=
  match find_cache name cs with
  | Some _ => cs
  | None => (cs ++ [(name, [])])%list
  end.

(** [caches.match(request)]: the first hit over all caches, in creation
    order. *)
Fixpoint caches_match (query : Request) (cs : CacheStorage) : option Response :=
  match cs with
  | [] => None
  | (_, c) :: rest =>
      match cache_match query c with
      | Some r => Some r
      | None => caches_match query rest
      end
  end.

(** A put that the host has accepted, on the cache called [name]. *)
Fixpoint batch_put (name : string) (q : Request) (r : Response) (cs : CacheStorage)
  : CacheStorage :=
  match cs with
  | [] => []
  | (n, c) :: rest =>
      if String.eqb name n then (n, replace_matching q r c) :: rest
      else (n, c) :: batch_put name q r rest
  end.

(** The URLs a cache has an item for, fragments aside. *)
Definition cached_urls (c : Cache) : gset URL :=
  list_to_set ((λ item, without_fragment (url item.1)) <$> c).

(** ** Clients and notifications *)

Inductive ClientType : Type := WindowT | WorkerT | SharedWorkerT.

Record Client : Type := mkClient {
  client_id : string;
  client_type : ClientType;
  client_url : string
}.

Definition is_window (c : Client) : bool :=
  match client_type c with WindowT => true | _ => false end.

(** ["focus" in c]: the window clients are the ones with a [focus] method. *)
Definition has_focus (c : Client) : bool := is_window c.

(** The arguments of a [showNotification(title, options)] call, as the
    worker passes them. *)
Record Notification : Type := mkNotification {
  n_title : JSValue;
  n_body : JSValue;
  n_data : JSValue;
  n_icon : string;
  n_badge : string
}.

(** [e.data] of a push event: [json()] returns the parsed payload, or throws
    ([None]) when the payload is not JSON. *)
Record PushMessageData : Type := mkPushData { json : option JSValue }.

(** ** Computations of the worker *)

(** [StartPut request copy]: the chain
    [caches.open(CACHE).then((c) => c.put(request, copy))] has been started
    and is not awaited. *)
Inductive Effect : Type :=
| NetFetch (req : Request)
| RespondWith
| SkipWaiting
| ClientsClaim
| ShowNotification (n : Notification)
| CloseNotification
| Focus (c : Client)
| OpenWindow (target : JSValue)
| StartPut (request : Request) (copy : Response).

Record Outcome (A : Type) : Type := mkOutcome {
  value : Exn + A;
  log : list Effect;
  final : CacheStorage
}.
Arguments mkOutcome {A} _ _ _.
Arguments value {A} _.
Arguments log {A} _.
Arguments final {A} _.

Definition SW (A : Type) : Type := CacheStorage → Outcome A.

#[export] Instance SW_ret : MRet SW := λ A a cs, mkOutcome (inr a) [] cs.

#[export] Instance SW_bind : MBind SW := λ A B f m cs,
  let o := m cs in
  match value o with
  | inl e => mkOutcome (inl e) (log o) (final o)
  | inr a => let o' := f a (final o) in
             mkOutcome (value o') (log o ++ log o')%list (final o')
  end.

Definition throw {A} (e : Exn) : SW A := λ cs, mkOutcome (inl e) [] cs.

Definition emit (ef : Effect) : SW unit := λ cs, mkOutcome (inr ()) [ef] cs.

Definition lift {A} (x : Exn + A) : SW A := λ cs, mkOutcome x [] cs.

Definition get_storage : SW CacheStorage := λ cs, mkOutcome (inr cs) [] cs.

Definition update_storage (f : CacheStorage → CacheStorage) : SW unit :=
  λ cs, mkOutcome (inr ()) [] (f cs).

(** [try { m } catch (_) { h }] *)
Definition try_catch {A} (m : SW A) (h : Exn → SW A) : SW A := λ cs,
  let o := m cs in
  match value o with
  | inl e => let o' := h e (final o) in
             mkOutcome (value o') (log o ++ log o')%list (final o')
  | inr a => o
  end.

(** [fetch(request)] *)
Definition net_fetch (net : Network) (req : Request) : SW Response :=
  emit (NetFetch req);;
  match net req with
  | Some r => mret r
  | None => throw TypeError
  end.

Definition void {A} (m : SW A) : SW unit := m ≫= λ _, mret ().

(** The run of a handler on a cache storage. *)
Definition run {A} (m : SW A) (cs : CacheStorage) : Outcome A := m cs.

(** [c.put(request, response)] on the cache called [name]. *)
Definition cache_put (name : string) (q : Request) (r : Response) : SW unit :=
  if put_refused q r then throw TypeError
  else update_storage (batch_put name q r).

(** ** The worker *)

Definition CACHE : string := "bailsaas-v1".

Definition ASSETS : list string := ["/"; "/static/manifest.webmanifest"].

(** [self.location]: a worker is served over http or https. *)
Record Location : Type := mkLocation { loc_https : bool; loc_host : string }.

Section Worker.

Variable self : Location.

(** What the host's URL parser makes, with the worker's location as base,
    of a string that is a path without fragment, as the strings of [ASSETS]
    are. *)
Definition asset_url (a : string) : URL :=
  mkURL (if loc_https self then "https" else "http") (loc_host self) a None.

(** The request [addAll] builds from a string. *)
Definition asset_request (a : string) : Request := mkRequest "GET" (asset_url a) [].

Fixpoint fetch_each (net : Network) (reqs : list Request)
  : SW (list (Request * option Response)) :=
  match reqs with
  | [] => mret []
  | q :: rest =>
      emit (NetFetch q);;
      rs ← fetch_each net rest;
      mret ((q, net q) :: rs)
  end.

(** The answers [addAll] goes on with: an ok status other than 206, and no
    [Vary: *]. *)
Definition accepted_by_addAll (p : Request * option Response) : bool :=
  match p.2 with
  | Some r => ok r && negb (status r =? 206)%Z && negb (bool_decide ("*" ∈ vary r))
  | None => false
  end.

Definition items_of (rs : list (Request * option Response)) : Cache :=
  omap (λ p, (λ r, (p.1, r)) <$> p.2) rs.

(** A batch is refused when the request of an operation matches an item
    that an earlier operation of the batch has added. *)
Fixpoint batch_conflict (added : Cache) (ops : Cache) : bool :=
  match ops with
  | [] => false
  | op :: rest =>
      existsb (matches op.1) added || batch_conflict (added ++ [op])%list rest
  end.

Definition put_each (name : string) (items : Cache) (cs : CacheStorage) : CacheStorage :=
  fold_left (λ acc op, batch_put name op.1 op.2 acc) items cs.

(** The effect of [put_each] inside one cache. *)
Definition stored (items : Cache) (c : Cache) : Cache :=
  fold_left (λ acc op, replace_matching op.1 op.2 acc) items c.

(** What the network answers to the requests for a list of URLs. *)
Definition assets_answers (net : Network) (urls : list string)
  : list (Request * option Response) :=
  (λ q, (q, net q)) <$> (asset_request <$> urls).

(** [c.addAll(urls)] on the cache called [name]: the requests are checked,
    every URL is fetched, the responses are checked, and the batch of puts
    is run; when a step fails the promise rejects and nothing is stored. *)
Definition cache_addAll (net : Network) (name : string) (urls : list string)
  : SW unit :=
  let reqs := asset_request <$> urls in
  if negb (forallb (λ q, is_http (url q) && String.eqb (method q) "GET") reqs)
  then throw TypeError
  else
    rs ← fetch_each net reqs;
    if negb (forallb accepted_by_addAll rs) then throw TypeError
    else if batch_conflict [] (items_of rs) then throw InvalidStateError
    else update_storage (put_each name (items_of rs)).

(** [install]: the result is the settlement of the promise handed to
    [e.waitUntil]. *)
Definition on_install (net : Network) : SW unit :=
  update_storage (caches_open CACHE);;
  emit SkipWaiting;;
  cache_addAll net CACHE ASSETS.

(** [activate] *)
Definition on_activate : SW unit :=
  emit ClientsClaim.

(** [fetch]: [None] when the handler returns without [e.respondWith],
    otherwise the response that the promise handed to [e.respondWith]
    fulfils with.  On a miss the put of the copy is started, not awaited:
    the storage is not changed by the handler itself. *)
Definition on_fetch (net : Network) (request : Request) : SW (option Response) :=
  if negb (String.eqb (method request) "GET") then mret None
  else
    emit RespondWith;;
    cs ← get_storage;
    match caches_match request cs with
    | Some cached => mret (Some cached)
    | None =>
        res ← net_fetch net request;
        let copy := res in
        emit (StartPut request copy);;
        mret (Some res)
    end.

(** The task that [on_fetch] starts:
    [caches.open(CACHE).then((c) => c.put(request, copy))].  Its result is
    the settlement of that promise, which nobody handles. *)
Definition put_task (request : Request) (copy : Response) : SW unit :=
  update_storage (caches_open CACHE);;
  cache_put CACHE request copy.

(** [e.data.json()] *)
Definition data_json (e_data : option PushMessageData) : SW JSValue :=
  match e_data with
  | None => throw TypeError
  | Some d =>
      match json d with
      | Some v => mret v
      | None => throw SyntaxError
      end
  end.

(** The value of [data] after the [try] statement of the push handler. *)
Definition payload_of (e_data : option PushMessageData) : JSValue :=
  match e_data with
  | Some d => default (JObj []) (json d)
  | None => JObj []
  end.

(** [v.k || d], for a [v] that is neither [null] nor [undefined]. *)
Definition field_or (v : JSValue) (k : string) (d : JSValue) : JSValue :=
  match get_prop v k with
  | inr x => js_or x d
  | inl _ => d
  end.

(** [push] *)
Definition on_push (e_data : option PushMessageData) : SW unit :=
  data ← try_catch (data_json e_data) (λ _, mret (JObj []));
  t ← lift (get_prop data "title");
  let title := js_or t (JStr "BailSaaS") in
  b ← lift (get_prop data "body");
  let body := js_or b (JStr "") in
  u ← lift (get_prop data "url");
  let url := js_or u (JStr "/") in
  emit (ShowNotification
          {| n_title := title;
             n_body := body;
             n_data := JObj [("url", url)];
             n_icon := "/static/icons/icon-192.png";
             n_badge := "/static/icons/icon-192.png" |}).

(** [clients.matchAll({ type: "window" })], from the clients the worker
    controls. *)
Definition matchAll_window (clients : list Client) : list Client :=
  filter (λ c, is_window c = true) clients.

(** The [for] loop of the click handler: the first client it focuses. *)
Fixpoint first_focusable (url : JSValue) (list : list Client) : option Client :=
  match list with
  | [] => None
  | c :: rest =>
      if strict_eq_string (client_url c) url && has_focus c then Some c
      else first_focusable url rest
  end.

(** [notificationclick] *)
Definition on_notificationclick (clients : list Client) (notification : Notification)
  : SW unit :=
  emit CloseNotification;;
  u ← lift (get_prop_opt (n_data notification) "url");
  let url := js_or u (JStr "/") in
  match first_focusable url (matchAll_window clients) with
  | Some c => emit (Focus c)
  | None => emit (OpenWindow url)
  end.

(** *** Events *)

Inductive Event : Type :=
| Install
| Activate
| FetchEvent (request : Request)
| PushEvent (data : option PushMessageData)
| NotificationClick (notification : Notification).

(** What the host offers while an event is handled. *)
Record Host : Type := mkHost { net : Network; clients : list Client }.

Definition dispatch (h : Host) (ev : Event) : SW unit :=
  match ev with
  | Install => on_install (net h)
  | Activate => on_activate
  | FetchEvent request => void (on_fetch (net h) request)
  | PushEvent data => on_push data
  | NotificationClick n => on_notificationclick (clients h) n
  end.

Definition is_install (ev : Event) : bool :=
  match ev with Install => true | _ => false end.

(** *** Worlds: the storage and the puts that are under way *)

Record World : Type := mkWorld {
  caches : CacheStorage;
  pending : list (Request * Response)
}.

(** The puts that a run has started. *)
Definition started (l : list Effect) : list (Request * Response) :=
  omap (λ ef, match ef with StartPut q r => Some (q, r) | _ => None end) l.

(** The worker handles an event, or a put that is under way runs. *)
Inductive Step : Type :=
| Handle (h : Host) (ev : Event)
| Settle (i : nat).

Definition step (s : Step) (w : World) : World :=
  match s with
  | Handle h ev =>
      let o := run (dispatch h ev) (caches w) in
      mkWorld (final o) (pending w ++ started (log o))%list
  | Settle i =>
      match pending w !! i with
      | Some (q, r) =>
          mkWorld (final (run (put_task q r) (caches w))) (delete i (pending w))
      | None => w
      end
  end.

(** The world after a sequence of steps. *)
Fixpoint play (trace : list Step) (w : World) : World :=
  match trace with
  | [] => w
  | s :: rest => play rest (step s w)
  end.

(** The worlds the worker can be in: it starts with no cache at all and no
    put under way, whatever the host does. *)
Inductive reachable : World → Prop :=
| reachable_init : reachable (mkWorld [] [])
| reachable_step w s : reachable w → reachable (step s w).

(** The bucket of the worker. *)
Definition bucket (cs : CacheStorage) : Cache :=
  default [] (find_cache CACHE cs).

(** The only cache, if any, is the worker's bucket. *)
Definition sole_bucket (cs : CacheStorage) : Prop :=
  cs = [] ∨ ∃ c, cs = [(CACHE, c)].

(** No cache but the bucket holds an item that matches the request. *)
Definition only_bucket_matches (query : Request) (cs : CacheStorage) : Prop :=
  ∀ name c, (name, c) ∈ cs → name ≠ CACHE → cache_match query c = None.

End Worker.

(** ** Concrete hosts, for examples *)

Module Example.

Definition origin : string := "https://example.com".

(** The serialisation of the URL that a path resolves to. *)
Definition resolve (s : string) : string := origin ++ s.

Definition site : Location := mkLocation true "example.com".

Definition at_path (p : string) : URL := mkURL "https" "example.com" p None.

Definition GET (u : URL) : Request := mkRequest "GET" u [].

Definition page : Response := mkResponse 200 "<html>" [].
Definition manifest : Response := mkResponse 200 "{}" [].
Definition not_found : Response := mkResponse 404 "not found" [].
Definition partial : Response := mkResponse 206 "bytes 0-99" [].
Definition bonjour : Response := mkResponse 200 "Bonjour" ["accept-language"].
Definition hello : Response := mkResponse 200 "Hello" ["accept-language"].

(** A server with two pages, a video it serves in parts, and a greeting in
    the language the request asks for. *)
Definition online : Network := λ q,
  if String.eqb (path (url q)) "/" then Some page
  else if String.eqb (path (url q)) "/static/manifest.webmanifest" then Some manifest
  else if String.eqb (path (url q)) "/video" then Some partial
  else if String.eqb (path (url q)) "/hello" then
    (if bool_decide (header "accept-language" (headers q) = Some "fr")
     then Some bonjour else Some hello)
  else Some not_found.

Definition offline : Network := λ _, None.

Definition page_v2 : Response := mkResponse 200 "<html>v2" [].

(** The network after the site has deployed a new page. *)
Definition redeployed : Network := λ q,
  if String.eqb (path (url q)) "/" then Some page_v2 else online q.

(** The world after a first install. *)
Definition installed_world : World := step site (Handle (mkHost online []) Install) (mkWorld [] []).

Definition installed : CacheStorage := caches installed_world.

(** The world after a first install and a visit of [/other], once the put
    of the visit has run. *)
Definition browsed_world : World :=
  play site [Handle (mkHost online []) (FetchEvent (GET (at_path "/other"))); Settle 0]
    installed_world.

Definition browsed : CacheStorage := caches browsed_world.

(** A request for the greeting in French, and one in English. *)
Definition GET_fr : Request :=
  mkRequest "GET" (at_path "/hello") [("accept-language", "fr")].
Definition GET_en : Request :=
  mkRequest "GET" (at_path "/hello") [("accept-language", "en")].

(** The world after the French greeting has been fetched and stored. *)
Definition greeted_world : World :=
  play site [Handle (mkHost online []) (FetchEvent GET_fr); Settle 0] installed_world.

(** The world after a visit of the video, once the put of the visit has
    run. *)
Definition watched_world : World :=
  play site [Handle (mkHost online []) (FetchEvent (GET (at_path "/video"))); Settle 0]
    installed_world.

(** The network once the site has a page at [/other]. *)
Definition restocked : Network := λ q,
  if String.eqb (path (url q)) "/other" then Some page_v2 else online q.

(** Two visits of [/other] that overlap: both requests are handled before
    either put has run. *)
Definition overlapped_world : World :=
  play site [Handle (mkHost online []) (FetchEvent (GET (at_path "/other")));
             Handle (mkHost restocked []) (FetchEvent (GET (at_path "/other")));
             Settle 0; Settle 0]
    installed_world.

(** What the push handler shows for the payload
    [{"title":"T","body":"B","url":"/x"}]. *)
Definition shown_T_B_x : Notification :=
  {| n_title := JStr "T";
     n_body := JStr "B";
     n_data := JObj [("url", JStr "/x")];
     n_icon := "/static/icons/icon-192.png";
     n_badge := "/static/icons/icon-192.png" |}.

(** A window of the site that shows [/x]. *)
Definition window_x : Client := mkClient "w1" WindowT (resolve "/x").

(** A storage that also holds a cache of another name, as an earlier
    version of a worker may have left it. *)
Definition with_old_cache : CacheStorage :=
  [("bailsaas-v0", [(GET (at_path "/old"), page)]); (CACHE, [])].

(** A payload with a title only, and an empty body. *)
Definition title_only : JSValue :=
  JObj [("title", JStr "Court date"); ("body", JStr "")].

(** A notification shown without any data. *)
Definition no_data : Notification :=
  {| n_title := JStr "T"; n_body := JStr ""; n_data := JNull;
     n_icon := ""; n_badge := "" |}.

End Example.

Local Open Scope list_scope.

(** ** Facts about matching and puts *)

Section Matching.

Implicit Types (c : Cache) (q query : Request) (r : Response)
  (item : Request * Response).

Lemma matches_same_url query item :
  matches query item = true →
  without_fragment (url query) = without_fragment (url item.1).
Proof.
  unfold matches. intros [[_ H]%andb_true_iff _]%andb_true_iff.
  by apply bool_decide_eq_true in H.
Qed.

Lemma matches_GET query item : matches query item = true → method query = "GET".
Proof.
  unfold matches. intros [[H _]%andb_true_iff _]%andb_true_iff.
  by apply String.eqb_eq in H.
Qed.

(** A request matches the item it was stored with, unless the response
    says [Vary: *]. *)
Lemma matches_self q r :
  method q = "GET" → "*" ∉ vary r → matches q (q, r) = true.
Proof.
  intros Hm Hv. unfold matches. simpl.
  apply String.eqb_eq in Hm. rewrite Hm, bool_decide_eq_true_2 by done. simpl.
  unfold vary_agrees. apply forallb_forall. intros f Hf%list_elem_of_In.
  rewrite bool_decide_eq_true_2 by done. rewrite andb_true_r.
  apply negb_true_iff, String.eqb_neq. by intros ->.
Qed.

Lemma put_accepted q r :
  put_refused q r = false →
  is_http (url q) = true ∧ method q = "GET" ∧ status r ≠ 206%Z ∧ "*" ∉ vary r.
Proof.
  unfold put_refused.
  intros [[[H1 H2]%orb_false_iff H3]%orb_false_iff H4]%orb_false_iff.
  apply negb_false_iff in H1, H2. apply String.eqb_eq in H2.
  apply Z.eqb_neq in H3. apply bool_decide_eq_false in H4. done.
Qed.


Lemma cache_match_None query c :
  cache_match query c = None ↔ ∀ item, item ∈ c → matches query item = false.
Proof.
  induction c as [|item0 c IH]; simpl.
  - split; [|done]. intros _ item H. by apply elem_of_nil in H.
  - destruct (matches query item0) eqn:E.
    + split; [done|]. intros H. specialize (H item0 (list_elem_of_here _ _)).
      congruence.
    + rewrite IH. split.
      * intros H item [-> | Hin]%elem_of_cons; [done | by apply H].
      * intros H item Hin. apply H. by right.
Qed.

Lemma cache_match_Some query c r :
  cache_match query c = Some r →
  ∃ item, item ∈ c ∧ matches query item = true ∧ item.2 = r.
Proof.
  induction c as [|item0 c IH]; simpl; [done|].
  destruct (matches query item0) eqn:E.
  - intros [= <-]. exists item0. split; [left | done].
  - intros H. destruct (IH H) as (item & Hin & Hm & Hr).
    exists item. split; [by right | done].
Qed.

Lemma cache_match_app query c1 c2 :
  cache_match query (c1 ++ c2)%list =
    match cache_match query c1 with
    | Some r => Some r
    | None => cache_match query c2
    end.
Proof.
  induction c1 as [|item c1 IH]; simpl; [done|].
  by destruct (matches query item).
Qed.

Lemma elem_of_replace_matching q r c item :
  item ∈ replace_matching q r c ↔
  (item ∈ c ∧ matches q item = false) ∨ item = (q, r).
Proof.
  unfold replace_matching.
  rewrite elem_of_app, list_elem_of_filter, list_elem_of_singleton. naive_solver.
Qed.

(** After an accepted put the request is answered with the response that
    was put. *)
Lemma cache_match_replace q r c :
  method q = "GET" → "*" ∉ vary r →
  cache_match q (replace_matching q r c) = Some r.
Proof.
  intros Hm Hv. unfold replace_matching. rewrite cache_match_app.
  assert (cache_match q (filter (λ item, matches q item = false) c) = None) as ->.
  { apply cache_match_None. by intros item [? _]%list_elem_of_filter. }
  simpl. by rewrite matches_self.
Qed.

(** A put keeps every URL and adds the one of its request. *)
Lemma cached_urls_replace q r c :
  cached_urls (replace_matching q r c) = {[ without_fragment (url q) ]} ∪ cached_urls c.
Proof.
  apply set_eq. intros u. unfold cached_urls.
  rewrite elem_of_union, elem_of_singleton, !elem_of_list_to_set, !list_elem_of_fmap.
  split.
  - intros (item & -> & [[Hin _] | ->]%elem_of_replace_matching).
    + right. by exists item.
    + by left.
  - intros [-> | (item & -> & Hin)].
    + exists (q, r). split; [done|]. apply elem_of_replace_matching. by right.
    + destruct (matches q item) eqn:E.
      * exists (q, r). split; [simpl; by rewrite (matches_same_url _ _ E)|].
        apply elem_of_replace_matching. by right.
      * exists item. split; [done|]. apply elem_of_replace_matching. by left.
Qed.

Lemma cached_urls_replace_subseteq q r c :
  cached_urls c ⊆ cached_urls (replace_matching q r c).
Proof.
  intros u. unfold cached_urls.
  rewrite !elem_of_list_to_set, !list_elem_of_fmap.
  intros (item & -> & Hin).
  destruct (matches q item) eqn:E.
  - exists (q, r). split; [simpl; by rewrite (matches_same_url _ _ E)|].
    apply elem_of_replace_matching. by right.
  - exists item. split; [done|]. apply elem_of_replace_matching. by left.
Qed.

End Matching.

(** ** Facts about the cache storage *)

Section Storage.

Implicit Types (cs : CacheStorage) (c : Cache) (r : Response) (q query : Request)
  (name : string).

Lemma find_cache_app_None name cs cs' :
  find_cache name cs = None →
  find_cache name (cs ++ cs')%list = find_cache name cs'.
Proof.
  induction cs as [|[n c] cs IH]; simpl; [done|].
  destruct (String.eqb name n); [done|]. exact IH.
Qed.

Lemma find_cache_app_Some name cs cs' c :
  find_cache name cs = Some c →
  find_cache name (cs ++ cs')%list = Some c.
Proof.
  induction cs as [|[n c'] cs IH]; simpl; [done|].
  destruct (String.eqb name n); [done|]. exact IH.
Qed.

Lemma find_cache_open_eq name cs :
  find_cache name (caches_open name cs) = Some (default [] (find_cache name cs)).
Proof.
  unfold caches_open. destruct (find_cache name cs) as [c|] eqn:E; simpl.
  - exact E.
  - rewrite (find_cache_app_None _ _ _ E). simpl.
    by rewrite String.eqb_refl.
Qed.

Lemma find_cache_open_ne name n cs :
  n ≠ name → find_cache n (caches_open name cs) = find_cache n cs.
Proof.
  intros Hne. unfold caches_open. destruct (find_cache name cs); [done|].
  destruct (find_cache n cs) as [c|] eqn:E.
  - by apply find_cache_app_Some.
  - rewrite (find_cache_app_None _ _ _ E). simpl.
    apply String.eqb_neq in Hne. by rewrite Hne.
Qed.

Lemma find_cache_batch_put_eq name q r cs :
  find_cache name (batch_put name q r cs) = replace_matching q r <$> find_cache name cs.
Proof.
  induction cs as [|[n c] cs IH]; simpl; [done|].
  destruct (String.eqb name n) eqn:E; simpl; rewrite E; [done|]. exact IH.
Qed.

Lemma find_cache_batch_put_ne name n q r cs :
  n ≠ name → find_cache n (batch_put name q r cs) = find_cache n cs.
Proof.
  intros Hne. induction cs as [|[n' c] cs IH]; simpl; [done|].
  destruct (String.eqb name n') eqn:E; simpl.
  - apply String.eqb_eq in E. subst n'.
    apply String.eqb_neq in Hne. by rewrite Hne.
  - destruct (String.eqb n n'); [done|]. exact IH.
Qed.

Lemma find_cache_elem name cs c : find_cache name cs = Some c → (name, c) ∈ cs.
Proof.
  induction cs as [|[n c'] cs IH]; simpl; [done|].
  destruct (String.eqb name n) eqn:E.
  - apply String.eqb_eq in E. intros [= ->]. subst. left.
  - intros H. right. by apply IH.
Qed.

(** A miss of [caches.match] is a miss in every cache. *)
Lemma caches_match_None query cs name c :
  caches_match query cs = None → (name, c) ∈ cs → cache_match query c = None.
Proof.
  induction cs as [|[n c'] cs IH]; simpl.
  - intros _ H. by apply elem_of_nil in H.
  - destruct (cache_match query c') eqn:E; [done|].
    intros Hm [[= -> ->] | Hin]%elem_of_cons; [done | by apply IH].
Qed.

(** A hit of [caches.match] is a match in some cache. *)
Lemma caches_match_Some query cs r :
  caches_match query cs = Some r →
  ∃ name c, (name, c) ∈ cs ∧ cache_match query c = Some r.
Proof.
  induction cs as [|[n c'] cs IH]; simpl; [done|].
  destruct (cache_match query c') eqn:E.
  - intros [= <-]. exists n, c'. split; [left | done].
  - intros Hm. destruct (IH Hm) as (name & c & Hin & Hc).
    exists name, c. split; [by right | done].
Qed.

(** A match in any cache makes [caches.match] hit. *)
Lemma caches_match_is_Some query cs name c :
  (name, c) ∈ cs → is_Some (cache_match query c) → is_Some (caches_match query cs).
Proof.
  intros Hin Hc. destruct (caches_match query cs) eqn:E; [done|].
  rewrite (caches_match_None _ _ _ _ E Hin) in Hc. by destruct Hc.
Qed.

End Storage.

(** ** The bucket of the worker *)

Section Bucket.

Implicit Types (cs : CacheStorage) (c : Cache) (r : Response) (q query : Request).

Lemma bucket_open cs : bucket (caches_open CACHE cs) = bucket cs.
Proof. unfold bucket. by rewrite find_cache_open_eq. Qed.

Lemma find_bucket_open cs : find_cache CACHE (caches_open CACHE cs) = Some (bucket cs).
Proof. apply find_cache_open_eq. Qed.

Lemma bucket_put_open q r cs :
  bucket (batch_put CACHE q r (caches_open CACHE cs)) = replace_matching q r (bucket cs).
Proof.
  unfold bucket at 1. by rewrite find_cache_batch_put_eq, find_bucket_open.
Qed.

Lemma sole_bucket_open cs : sole_bucket cs → sole_bucket (caches_open CACHE cs).
Proof.
  intros [-> | [c ->]]; right.
  - by exists [].
  - by exists c.
Qed.

Lemma sole_bucket_put q r cs : sole_bucket cs → sole_bucket (batch_put CACHE q r cs).
Proof.
  intros [-> | [c ->]]; [by left | right].
  by exists (replace_matching q r c).
Qed.

(** An item of the bucket is an item of a cache of the storage. *)
Lemma bucket_item_found cs (item : Request * Response) :
  item ∈ bucket cs → ∃ c, find_cache CACHE cs = Some c ∧ item ∈ c.
Proof.
  unfold bucket. destruct (find_cache CACHE cs) as [c|]; simpl.
  - intros H. by exists c.
  - intros H. by apply elem_of_nil in H.
Qed.

Lemma bucket_match_found cs query r :
  cache_match query (bucket cs) = Some r →
  ∃ c, find_cache CACHE cs = Some c ∧ cache_match query c = Some r.
Proof.
  unfold bucket. destruct (find_cache CACHE cs) as [c|]; simpl; [|done].
  intros H. by exists c.
Qed.

Lemma caches_match_named query cs (name : string) r :
  (∀ n c, (n, c) ∈ cs → n ≠ name → cache_match query c = None) →
  cache_match query (default [] (find_cache name cs)) = Some r →
  caches_match query cs = Some r.
Proof.
  induction cs as [|[n c] cs IH]; simpl; [done|]. intros Hother.
  destruct (String.eqb name n) eqn:E; simpl.
  - by intros ->.
  - intros Hb. rewrite (Hother n c).
    + apply IH; [|done]. intros n' c' Hin. apply Hother. by right.
    + left.
    + apply String.eqb_neq in E. congruence.
Qed.

(** When no other cache holds a match, [caches.match] answers with the
    match of the bucket. *)
Lemma only_bucket_matches_hit query cs r :
  only_bucket_matches query cs →
  cache_match query (bucket cs) = Some r →
  caches_match query cs = Some r.
Proof. apply caches_match_named. Qed.


(** With the bucket as only cache, [caches.match] is a match in the
    bucket. *)
Lemma sole_bucket_match query cs :
  sole_bucket cs → caches_match query cs = cache_match query (bucket cs).
Proof.
  intros [-> | [c ->]]; unfold bucket; simpl; [done|].
  by destruct (cache_match query c).
Qed.

Lemma elem_of_batch_put_other (name n : string) q r cs c :
  (n, c) ∈ batch_put name q r cs → n ≠ name → (n, c) ∈ cs.
Proof.
  intros Hin Hne. induction cs as [|[n' c'] cs IH]; simpl in *; [done|].
  destruct (String.eqb name n') eqn:E.
  - apply String.eqb_eq in E. subst n'.
    apply elem_of_cons in Hin as [[= -> _] | Hin]; [done | by right].
  - apply elem_of_cons in Hin as [[= -> ->] | Hin]; [left | right; by apply IH].
Qed.

Lemma elem_of_caches_open_other (name n : string) cs c :
  (n, c) ∈ caches_open name cs → n ≠ name → (n, c) ∈ cs.
Proof.
  unfold caches_open. destruct (find_cache name cs); [done|].
  intros [Hin | [= -> _]%list_elem_of_singleton]%elem_of_app Hne; done.
Qed.

(** A put leaves the other caches without a match as they were. *)
Lemma only_bucket_matches_put_open query q r cs :
  only_bucket_matches query cs →
  only_bucket_matches query (batch_put CACHE q r (caches_open CACHE cs)).
Proof.
  intros Hother name c Hin Hne. apply (Hother name c); [|done].
  apply (elem_of_caches_open_other CACHE); [|done].
  by apply (elem_of_batch_put_other CACHE _ q r).
Qed.

Lemma only_bucket_matches_open query cs :
  only_bucket_matches query cs → only_bucket_matches query (caches_open CACHE cs).
Proof.
  intros Hother name c Hin Hne. apply (Hother name c); [|done].
  by apply (elem_of_caches_open_other CACHE).
Qed.

End Bucket.

(** ** The runs of the fetch handler and of its put *)

Section Runs.

Implicit Types (cs : CacheStorage) (net : Network) (request : Request).

Lemma run_fetch_not_GET net request cs :
  method request ≠ "GET" →
  run (on_fetch net request) cs = mkOutcome (inr None) [] cs.
Proof.
  intros Hm. apply String.eqb_neq in Hm.
  unfold run, on_fetch. by rewrite Hm.
Qed.

Lemma run_fetch_hit net request cs cached :
  method request = "GET" →
  caches_match request cs = Some cached →
  run (on_fetch net request) cs = mkOutcome (inr (Some cached)) [RespondWith] cs.
Proof.
  intros Hm Hc. apply String.eqb_eq in Hm.
  unfold run, on_fetch. rewrite Hm. simpl.
  unfold mbind, SW_bind, emit, get_storage. simpl. by rewrite Hc.
Qed.

Lemma run_fetch_miss net request cs res :
  method request = "GET" →
  caches_match request cs = None →
  net request = Some res →
  run (on_fetch net request) cs =
    mkOutcome (inr (Some res)) [RespondWith; NetFetch request; StartPut request res] cs.
Proof.
  intros Hm Hc Hn. apply String.eqb_eq in Hm.
  unfold run, on_fetch. rewrite Hm. simpl.
  unfold mbind, SW_bind, emit, get_storage, net_fetch. simpl. rewrite Hc.
  unfold mbind, SW_bind, emit. simpl. by rewrite Hn.
Qed.

Lemma run_fetch_offline net request cs :
  method request = "GET" →
  caches_match request cs = None →
  net request = None →
  run (on_fetch net request) cs =
    mkOutcome (inl TypeError) [RespondWith; NetFetch request] cs.
Proof.
  intros Hm Hc Hn. apply String.eqb_eq in Hm.
  unfold run, on_fetch. rewrite Hm. simpl.
  unfold mbind, SW_bind, emit, get_storage, net_fetch. simpl. rewrite Hc.
  unfold mbind, SW_bind, emit. simpl. by rewrite Hn.
Qed.

(** The fetch handler never changes the storage itself. *)
Lemma final_fetch net request cs : final (run (on_fetch net request) cs) = cs.
Proof.
  destruct (decide (method request = "GET")) as [Hm|Hm].
  - destruct (caches_match request cs) as [cached|] eqn:Hc.
    + by rewrite (run_fetch_hit _ _ _ _ Hm Hc).
    + destruct (net request) as [res|] eqn:Hn.
      * by rewrite (run_fetch_miss _ _ _ _ Hm Hc Hn).
      * by rewrite (run_fetch_offline _ _ _ Hm Hc Hn).
  - by rewrite (run_fetch_not_GET _ _ _ Hm).
Qed.

(** The fetch handler starts a put only for its own request, after a miss,
    with the response of the network. *)
Lemma fetch_started net request cs q r :
  StartPut q r ∈ log (run (on_fetch net request) cs) →
  q = request ∧ method request = "GET" ∧
  caches_match request cs = None ∧ net request = Some r.
Proof.
  destruct (decide (method request = "GET")) as [Hm|Hm].
  - destruct (caches_match request cs) as [cached|] eqn:Hc.
    + rewrite (run_fetch_hit _ _ _ _ Hm Hc). simpl.
      by intros [[=] | []%elem_of_nil]%elem_of_cons.
    + destruct (net request) as [res|] eqn:Hn.
      * rewrite (run_fetch_miss _ _ _ _ Hm Hc Hn). simpl.
        intros [[=] | [[=] | [[= -> ->] | []%elem_of_nil]%elem_of_cons
                  ]%elem_of_cons]%elem_of_cons.
        done.
      * rewrite (run_fetch_offline _ _ _ Hm Hc Hn). simpl.
        by intros [[=] | [[=] | []%elem_of_nil]%elem_of_cons]%elem_of_cons.
  - rewrite (run_fetch_not_GET _ _ _ Hm). simpl. by intros []%elem_of_nil.
Qed.

Lemma run_put_task_accepted request copy cs :
  put_refused request copy = false →
  run (put_task request copy) cs =
    mkOutcome (inr ()) [] (batch_put CACHE request copy (caches_open CACHE cs)).
Proof.
  intros Hok. unfold run, put_task, cache_put, mbind, SW_bind, update_storage.
  cbn [value log final]. by rewrite Hok.
Qed.

Lemma run_put_task_refused request copy cs :
  put_refused request copy = true →
  run (put_task request copy) cs = mkOutcome (inl TypeError) [] (caches_open CACHE cs).
Proof.
  intros Hok. unfold run, put_task, cache_put, mbind, SW_bind, update_storage.
  cbn [value log final]. by rewrite Hok.
Qed.

(** The bucket after the put has run. *)
Lemma bucket_put_task request copy cs :
  bucket (final (run (put_task request copy) cs)) =
    if put_refused request copy then bucket cs
    else replace_matching request copy (bucket cs).
Proof.
  destruct (put_refused request copy) eqn:E.
  - rewrite (run_put_task_refused _ _ _ E). cbn [final]. apply bucket_open.
  - rewrite (run_put_task_accepted _ _ _ E). cbn [final]. apply bucket_put_open.
Qed.

Lemma sole_bucket_put_task request copy cs :
  sole_bucket cs → sole_bucket (final (run (put_task request copy) cs)).
Proof.
  intros Hs. destruct (put_refused request copy) eqn:E.
  - rewrite (run_put_task_refused _ _ _ E). by apply sole_bucket_open.
  - rewrite (run_put_task_accepted _ _ _ E). by apply sole_bucket_put, sole_bucket_open.
Qed.

Lemma find_cache_put_task_other request copy cs (name : string) :
  name ≠ CACHE →
  find_cache name (final (run (put_task request copy) cs)) = find_cache name cs.
Proof.
  intros Hne. destruct (put_refused request copy) eqn:E.
  - rewrite (run_put_task_refused _ _ _ E). cbn [final]. by rewrite find_cache_open_ne.
  - rewrite (run_put_task_accepted _ _ _ E). cbn [final].
    by rewrite find_cache_batch_put_ne, find_cache_open_ne.
Qed.

(** [fetch_each] asks the network for every request, in order, and leaves
    the storage alone. *)
Lemma run_fetch_each net reqs cs :
  run (fetch_each net reqs) cs =
    mkOutcome (inr ((λ q, (q, net q)) <$> reqs)) (NetFetch <$> reqs) cs.
Proof.
  unfold run. induction reqs as [|q reqs IH]; [done|].
  simpl. unfold mbind, SW_bind, emit. simpl. rewrite IH. simpl.
  by rewrite app_nil_r.
Qed.

End Runs.

(** ** What [addAll] stores *)

Section AddAll.

Implicit Types (cs : CacheStorage) (c added items : Cache) (net : Network)
  (rs : list (Request * option Response)).

Lemma find_cache_put_each_eq (name : string) items cs :
  find_cache name (put_each name items cs) = stored items <$> find_cache name cs.
Proof.
  unfold put_each, stored. revert cs.
  induction items as [|[q r] items IH]; intros cs; simpl.
  - by destruct (find_cache name cs).
  - rewrite IH, find_cache_batch_put_eq. by destruct (find_cache name cs).
Qed.

Lemma find_cache_put_each_ne (name n : string) items cs :
  n ≠ name → find_cache n (put_each name items cs) = find_cache n cs.
Proof.
  intros Hne. unfold put_each. revert cs.
  induction items as [|[q r] items IH]; intros cs; simpl; [done|].
  by rewrite IH, find_cache_batch_put_ne.
Qed.

Lemma sole_bucket_put_each items cs : sole_bucket cs → sole_bucket (put_each CACHE items cs).
Proof.
  unfold put_each. revert cs.
  induction items as [|[q r] items IH]; intros cs Hs; simpl; [done|].
  by apply IH, sole_bucket_put.
Qed.

Lemma bucket_put_each_open items cs :
  bucket (put_each CACHE items (caches_open CACHE cs)) = stored items (bucket cs).
Proof.
  unfold bucket at 1. by rewrite find_cache_put_each_eq, find_bucket_open.
Qed.

(** The URLs after a batch of puts. *)
Lemma stored_urls items c :
  cached_urls (stored items c) =
    list_to_set ((λ op, without_fragment (url op.1)) <$> items) ∪ cached_urls c.
Proof.
  unfold stored. revert c.
  induction items as [|[q r] items IH]; intros c; simpl.
  - set_solver.
  - rewrite IH, cached_urls_replace. simpl. set_solver.
Qed.

(** A batch of puts keeps the items whose URL is the URL of none of its
    requests. *)
Lemma stored_keeps_other_urls items c (item : Request * Response) :
  item ∈ c →
  without_fragment (url item.1) ∉ (λ op, without_fragment (url op.1)) <$> items →
  item ∈ stored items c.
Proof.
  unfold stored. revert c.
  induction items as [|[q r] items IH]; intros c Hin Hu; simpl in *; [done|].
  apply not_elem_of_cons in Hu as [Hne Hu].
  apply IH; [|done]. apply elem_of_replace_matching. left. split; [done|].
  destruct (matches q item) eqn:E; [|done].
  destruct Hne. by rewrite (matches_same_url _ _ E).
Qed.

Lemma filter_all {A} (P : A → Prop) `{!∀ x, Decision (P x)} (l : list A) :
  (∀ x, x ∈ l → P x) → filter P l = l.
Proof.
  induction l as [|x l IH]; intros Hall; [done|].
  rewrite filter_cons_True by (apply Hall; left).
  rewrite IH; [done|]. intros y Hy. apply Hall. by right.
Qed.

Lemma filter_none {A} (P : A → Prop) `{!∀ x, Decision (P x)} (l : list A) :
  (∀ x, x ∈ l → ¬ P x) → filter P l = [].
Proof.
  induction l as [|x l IH]; intros Hall; [done|].
  rewrite filter_cons_False by (apply Hall; left).
  apply IH. intros y Hy. apply Hall. by right.
Qed.

Lemma existsb_false {A} (f : A → bool) (l : list A) :
  existsb f l = false ↔ ∀ x, x ∈ l → f x = false.
Proof.
  induction l as [|x l IH]; simpl.
  - split; [|done]. intros _ y Hy. by apply elem_of_nil in Hy.
  - rewrite orb_false_iff, IH. split.
    + intros [H1 H2] y [-> | Hy]%elem_of_cons; [done | by apply H2].
    + intros H. split; [apply H; left | intros y Hy; apply H; by right].
Qed.

(** A batch without conflict, in closed form: the items that no request of
    the batch matches, then the items of the batch. *)
Lemma stored_closed_form items c added :
  batch_conflict added items = false →
  stored items (c ++ added)%list =
    (filter (unmatched_by items) c ++ added ++ items)%list.
Proof.
  unfold stored. revert c added.
  induction items as [|[q r] items IH]; intros c added Hnc;
    cbn [fold_left batch_conflict fst snd] in *.
  - rewrite app_nil_r. f_equal. symmetry. by apply filter_all.
  - apply orb_false_iff in Hnc as [Hadded Hnc].
    assert (replace_matching q r (c ++ added) =
              (filter (λ item, matches q item = false) c ++ (added ++ [(q, r)]))%list) as ->.
    { unfold replace_matching. rewrite filter_app, <- app_assoc. do 2 f_equal.
      apply filter_all. by apply existsb_false. }
    rewrite (IH _ _ Hnc), <- !app_assoc. cbn [app]. f_equal.
    rewrite list_filter_filter. apply list_filter_iff. intros item.
    unfold unmatched_by. cbn [existsb fst]. rewrite orb_false_iff. naive_solver.
Qed.

End AddAll.

(** ** The runs of the install handler *)

Section InstallRuns.

Variable self : Location.

Implicit Types (cs : CacheStorage) (net : Network).

Lemma asset_url_is_http a : is_http (asset_url self a) = true.
Proof. unfold is_http, asset_url. simpl. by destruct (loc_https self). Qed.

Lemma asset_url_without_fragment a : without_fragment (asset_url self a) = asset_url self a.
Proof. done. Qed.

Lemma asset_url_inj a b : asset_url self a = asset_url self b → a = b.
Proof. by intros [= ->]. Qed.

Lemma asset_requests_checked (urls : list string) :
  forallb (λ q, is_http (url q) && String.eqb (method q) "GET")
          (asset_request self <$> urls) = true.
Proof.
  induction urls as [|a urls IH]; [done|].
  cbn [fmap list_fmap forallb]. rewrite IH, andb_true_r.
  cbn [asset_request url method]. by rewrite asset_url_is_http.
Qed.

(** The items of a batch whose answers were all accepted. *)
Lemma elem_of_items_of (rs : list (Request * option Response)) q r :
  (q, r) ∈ items_of rs ↔ (q, Some r) ∈ rs.
Proof.
  unfold items_of. rewrite list_elem_of_omap. split.
  - intros ([q' [r'|]] & Hin & [= <- <-]). done.
  - intros Hin. exists (q, Some r). done.
Qed.

Lemma items_of_urls net (urls : list string) :
  forallb (accepted_by_addAll) (assets_answers self net urls) = true →
  (λ op : Request * Response, without_fragment (url op.1)) <$>
    items_of (assets_answers self net urls) = asset_url self <$> urls.
Proof.
  unfold assets_answers, items_of. induction urls as [|a urls IH]; [done|].
  cbn [fmap list_fmap forallb omap list_omap]. intros [Ha Hok]%andb_true_iff.
  unfold accepted_by_addAll in Ha. cbn [snd fst] in *.
  destruct (net (asset_request self a)) as [r|]; [|done].
  cbn [fmap option_fmap option_map fst]. cbn [fmap list_fmap]. f_equal. by apply IH.
Qed.

(** The two assets never conflict in a batch: their URLs differ. *)
Lemma assets_no_conflict net :
  batch_conflict [] (items_of (assets_answers self net ASSETS)) = false.
Proof.
  unfold assets_answers, items_of, ASSETS.
  cbn [fmap list_fmap omap list_omap fst snd].
  destruct (net (asset_request self "/")) as [r1|],
           (net (asset_request self "/static/manifest.webmanifest")) as [r2|];
    cbn [fmap option_fmap option_map batch_conflict existsb app orb fst]; try done.
  rewrite !orb_false_r. unfold matches. cbn [fst snd].
  rewrite bool_decide_eq_false_2; [by rewrite andb_false_r|].
  unfold asset_request, asset_url, without_fragment. simpl. discriminate.
Qed.

Lemma run_addAll_ok net (name : string) (urls : list string) cs :
  forallb accepted_by_addAll (assets_answers self net urls) = true →
  batch_conflict [] (items_of (assets_answers self net urls)) = false →
  run (cache_addAll self net name urls) cs =
    mkOutcome (inr ()) (NetFetch <$> (asset_request self <$> urls))
      (put_each name (items_of (assets_answers self net urls)) cs).
Proof.
  intros Hok Hnc. unfold run, cache_addAll. rewrite asset_requests_checked.
  cbn [negb]. unfold mbind, SW_bind.
  pose proof (run_fetch_each net (asset_request self <$> urls) cs) as E.
  unfold run in E. rewrite E. cbn [value log final].
  fold (assets_answers self net urls). rewrite Hok, Hnc. cbn [negb].
  unfold update_storage. cbn [value log final]. by rewrite app_nil_r.
Qed.

Lemma run_addAll_rejected net (name : string) (urls : list string) cs :
  forallb accepted_by_addAll (assets_answers self net urls) = false →
  run (cache_addAll self net name urls) cs =
    mkOutcome (inl TypeError) (NetFetch <$> (asset_request self <$> urls)) cs.
Proof.
  intros Hok. unfold run, cache_addAll. rewrite asset_requests_checked.
  cbn [negb]. unfold mbind, SW_bind.
  pose proof (run_fetch_each net (asset_request self <$> urls) cs) as E.
  unfold run in E. rewrite E. cbn [value log final].
  fold (assets_answers self net urls). rewrite Hok. cbn [negb].
  unfold throw. cbn [value log final]. by rewrite app_nil_r.
Qed.

Lemma run_install_ok net cs :
  forallb accepted_by_addAll (assets_answers self net ASSETS) = true →
  run (on_install self net) cs =
    mkOutcome (inr ()) (SkipWaiting :: (NetFetch <$> (asset_request self <$> ASSETS)))
      (put_each CACHE (items_of (assets_answers self net ASSETS)) (caches_open CACHE cs)).
Proof.
  intros Hok. unfold run, on_install, mbind, SW_bind, update_storage, emit.
  cbn [value log final]. change (cache_addAll self net CACHE ASSETS (caches_open CACHE cs))
    with (run (cache_addAll self net CACHE ASSETS) (caches_open CACHE cs)).
  by rewrite (run_addAll_ok net CACHE ASSETS (caches_open CACHE cs) Hok (assets_no_conflict net)).
Qed.

Lemma run_install_rejected net cs :
  forallb accepted_by_addAll (assets_answers self net ASSETS) = false →
  run (on_install self net) cs =
    mkOutcome (inl TypeError) (SkipWaiting :: (NetFetch <$> (asset_request self <$> ASSETS)))
      (caches_open CACHE cs).
Proof.
  intros Hok. unfold run, on_install, mbind, SW_bind, update_storage, emit.
  cbn [value log final]. change (cache_addAll self net CACHE ASSETS (caches_open CACHE cs))
    with (run (cache_addAll self net CACHE ASSETS) (caches_open CACHE cs)).
  by rewrite (run_addAll_rejected net CACHE ASSETS (caches_open CACHE cs) Hok).
Qed.

(** The install settles one way or the other: it always terminates. *)
Lemma install_succeeds_iff net cs :
  value (run (on_install self net) cs) = inr () ↔
  forallb accepted_by_addAll (assets_answers self net ASSETS) = true.
Proof.
  destruct (forallb accepted_by_addAll (assets_answers self net ASSETS)) eqn:E.
  - by rewrite (run_install_ok _ _ E).
  - by rewrite (run_install_rejected _ _ E).
Qed.

(** The storage after an install event. *)
Lemma final_install net cs :
  final (run (on_install self net) cs) =
    if forallb accepted_by_addAll (assets_answers self net ASSETS)
    then put_each CACHE (items_of (assets_answers self net ASSETS)) (caches_open CACHE cs)
    else caches_open CACHE cs.
Proof.
  destruct (forallb _ _) eqn:E.
  - by rewrite (run_install_ok _ _ E).
  - by rewrite (run_install_rejected _ _ E).
Qed.

(** The bucket after a successful install. *)
Lemma bucket_after_install net cs :
  value (run (on_install self net) cs) = inr () →
  forallb accepted_by_addAll (assets_answers self net ASSETS) = true ∧
  bucket (final (run (on_install self net) cs)) =
    stored (items_of (assets_answers self net ASSETS)) (bucket cs).
Proof.
  intros Hok%install_succeeds_iff. split; [done|].
  by rewrite final_install, Hok, bucket_put_each_open.
Qed.

(** The answers that make an install succeed. *)
Lemma accepted_answers net (urls : list string) :
  forallb accepted_by_addAll (assets_answers self net urls) = true ↔
  ∀ a, a ∈ urls →
    ∃ r, net (asset_request self a) = Some r ∧
         ok r = true ∧ status r ≠ 206%Z ∧ "*" ∉ vary r.
Proof.
  unfold assets_answers. induction urls as [|a0 urls IH].
  - split; [|done]. intros _ a Ha. by apply elem_of_nil in Ha.
  - cbn [fmap list_fmap forallb]. rewrite andb_true_iff, IH.
    unfold accepted_by_addAll at 1. cbn [snd]. split.
    + intros [H0 Hall] a [-> | Ha]%elem_of_cons; [|by apply Hall].
      destruct (net (asset_request self a0)) as [r|]; [|done].
      apply andb_true_iff in H0 as [[H1 H2]%andb_true_iff H3].
      apply negb_true_iff in H2, H3. apply Z.eqb_neq in H2.
      apply bool_decide_eq_false in H3. by exists r.
    + intros Hall. split.
      * destruct (Hall a0) as (r & -> & H1 & H2 & H3); [by left|].
        apply Z.eqb_neq in H2. rewrite H1, H2, bool_decide_eq_false_2 by done. done.
      * intros a Ha. apply Hall. by right.
Qed.

End InstallRuns.

(** ** The runs of the notification handlers *)

Section NotificationRuns.

Implicit Types (cs : CacheStorage).

Lemma run_void {A} (m : SW A) cs :
  final (run (void m) cs) = final (run m cs) ∧ log (run (void m) cs) = log (run m cs).
Proof.
  unfold run, void, mbind, SW_bind. destruct (value (m cs)); simpl; [done|].
  by rewrite app_nil_r.
Qed.

Lemma run_try_json e_data cs :
  run (try_catch (data_json e_data) (λ _, mret (JObj []))) cs =
    mkOutcome (inr (payload_of e_data)) [] cs.
Proof.
  unfold run, try_catch, data_json, payload_of.
  destruct e_data as [[[v|]]|]; reflexivity.
Qed.

(** The push handler on a payload it can read properties of. *)
Lemma run_push_object e_data cs :
  payload_of e_data ≠ JNull → payload_of e_data ≠ JUndefined →
  run (on_push e_data) cs =
    mkOutcome (inr ())
      [ShowNotification
         {| n_title := field_or (payload_of e_data) "title" (JStr "BailSaaS");
            n_body := field_or (payload_of e_data) "body" (JStr "");
            n_data := JObj [("url", field_or (payload_of e_data) "url" (JStr "/"))];
            n_icon := "/static/icons/icon-192.png";
            n_badge := "/static/icons/icon-192.png" |}]
      cs.
Proof.
  intros Hnull Hundef. unfold run, on_push, mbind, SW_bind.
  pose proof (run_try_json e_data cs) as E. unfold run in E. rewrite E.
  cbn [value log final]. unfold field_or.
  destruct (payload_of e_data); try done; reflexivity.
Qed.

(** The push handler on [null]: reading [data.title] throws. *)
Lemma run_push_null e_data cs :
  payload_of e_data = JNull ∨ payload_of e_data = JUndefined →
  run (on_push e_data) cs = mkOutcome (inl TypeError) [] cs.
Proof.
  intros Hv. unfold run, on_push, mbind, SW_bind.
  pose proof (run_try_json e_data cs) as E. unfold run in E. rewrite E.
  cbn [value log final]. by destruct Hv as [-> | ->].
Qed.

Lemma final_push e_data cs : final (run (on_push e_data) cs) = cs.
Proof.
  destruct (payload_of e_data) eqn:E;
    first [ by rewrite run_push_null; [|rewrite E; auto]
          | by rewrite run_push_object; [| rewrite E..] ].
Qed.

(** The host calls of the push handler: none, or one notification. *)
Lemma log_push e_data cs :
  log (run (on_push e_data) cs) = [] ∨
  ∃ n, log (run (on_push e_data) cs) = [ShowNotification n].
Proof.
  destruct (payload_of e_data) eqn:E;
    first [ left; by rewrite run_push_null; [|rewrite E; auto]
          | right; eexists; by rewrite run_push_object; [| rewrite E..] ].
Qed.

Lemma final_notificationclick clients n cs :
  final (run (on_notificationclick clients n) cs) = cs.
Proof.
  unfold run, on_notificationclick, mbind, SW_bind, emit, lift. cbn [value log final].
  destruct (get_prop_opt (n_data n) "url") as [e|u]; [done|].
  by destruct (first_focusable _ _).
Qed.

(** [v?.url] never throws. *)
Lemma get_prop_opt_total (v : JSValue) (k : string) : ∃ u, get_prop_opt v k = inr u.
Proof. destruct v; simpl; eauto. Qed.

End NotificationRuns.

(** ** The storage invariant *)

Section Invariant.

Variable self : Location.

Implicit Types (cs : CacheStorage) (w : World).

(** The storage after an event: the fetch, activate, push and click
    handlers leave it as it is. *)
Lemma final_dispatch_other h ev cs :
  is_install ev = false → final (run (dispatch self h ev) cs) = cs.
Proof.
  destruct ev as [| |request|data|n]; cbn [dispatch is_install]; intros Hi.
  - done.
  - done.
  - by rewrite (proj1 (run_void _ _)), final_fetch.
  - apply final_push.
  - apply final_notificationclick.
Qed.

Lemma dispatch_sole_bucket h ev cs :
  sole_bucket cs → sole_bucket (final (run (dispatch self h ev) cs)).
Proof.
  intros Hs. destruct (is_install ev) eqn:Hi.
  - destruct ev; try done. cbn [dispatch]. rewrite final_install.
    destruct (forallb _ _).
    + by apply sole_bucket_put_each, sole_bucket_open.
    + by apply sole_bucket_open.
  - by rewrite final_dispatch_other.
Qed.

Lemma step_sole_bucket s w :
  sole_bucket (caches w) → sole_bucket (caches (step self s w)).
Proof.
  intros Hs. destruct s as [h ev | i]; cbn [step].
  - cbn [caches]. by apply dispatch_sole_bucket.
  - destruct (pending w !! i) as [[q r]|]; [|done].
    cbn [caches]. by apply sole_bucket_put_task.
Qed.

(** Every world the worker reaches holds at most its own bucket. *)
Lemma reachable_sole_bucket w : reachable self w → sole_bucket (caches w).
Proof.
  induction 1 as [|w s _ IH]; [by left|]. by apply step_sole_bucket.
Qed.

(** Handling more steps from a reachable world gives a reachable world. *)
Lemma reachable_play trace w : reachable self w → reachable self (play self trace w).
Proof.
  revert w. induction trace as [|s trace IH]; intros w Hr; [done|].
  simpl. apply IH. by apply reachable_step.
Qed.

End Invariant.

(** ** The fetch handler *)

Section Fetch.

Implicit Types (cs : CacheStorage) (net : Network) (request : Request).

(** The put of an accepted response, and the same request afterwards: the
    response is in the bucket and answers the request, whatever the network
    does then, unless another cache holds a match. *)
Lemma put_then_hit net' request res cs1 :
  put_refused request res = false →
  let cs2 := final (run (put_task request res) cs1) in
  (request, res) ∈ bucket cs2 ∧
  cache_match request (bucket cs2) = Some res ∧
  (only_bucket_matches request cs1 →
   run (on_fetch net' request) cs2 = mkOutcome (inr (Some res)) [RespondWith] cs2).
Proof.
  intros Hok cs2.
  destruct (put_accepted _ _ Hok) as (_ & Hm & _ & Hv).
  assert (bucket cs2 = replace_matching request res (bucket cs1)) as Hb
    by (unfold cs2; by rewrite bucket_put_task, Hok).
  assert (cache_match request (bucket cs2) = Some res) as Hhit
    by (rewrite Hb; by apply cache_match_replace).
  split; [|split; [done|]].
  - rewrite Hb. apply elem_of_replace_matching. by right.
  - intros Hother. apply run_fetch_hit; [done|].
    apply only_bucket_matches_hit; [|done].
    unfold cs2. rewrite (run_put_task_accepted _ _ _ Hok). cbn [final].
    by apply only_bucket_matches_put_open.
Qed.

(** With the bucket as only cache, a request for a URL that the bucket has
    no item for misses. *)
Lemma absent_url_misses request cs :
  sole_bucket cs →
  without_fragment (url request) ∉ cached_urls (bucket cs) →
  caches_match request cs = None.
Proof.
  intros Hs Hu. rewrite sole_bucket_match by done.
  apply cache_match_None. intros item Hin.
  destruct (matches request item) eqn:E; [|done].
  destruct Hu. unfold cached_urls.
  apply elem_of_list_to_set, list_elem_of_fmap. exists item.
  split; [by apply matches_same_url | done].
Qed.

(** C1, as amended. For every GET request that matches an item of the cache
    bucket (the same URL up to the fragment, and the same values for the
    headers that the item's response names in [Vary]), the fetch handler
    answers with the match that [caches.match] finds over all caches and
    asks the network nothing: the only host call of the run is
    [respondWith], no put is started and the storage is as it was.  The
    answer is the match of the bucket whenever no other cache holds a
    match. *)
Theorem fetch_cached_is_served_from_cache net request cs r :
  method request = "GET" →
  cache_match request (bucket cs) = Some r →
  ∃ cached,
    caches_match request cs = Some cached ∧
    run (on_fetch net request) cs = mkOutcome (inr (Some cached)) [RespondWith] cs ∧
    (only_bucket_matches request cs → cached = r).
Proof.
  intros Hm (c & Hf & Hc)%bucket_match_found.
  destruct (caches_match_is_Some request cs CACHE c) as [cached Hcached].
  { by apply find_cache_elem. }
  { by rewrite Hc. }
  exists cached. split; [done|]. split; [by apply run_fetch_hit|].
  intros Hother.
  assert (caches_match request cs = Some r) as Hr.
  { apply only_bucket_matches_hit; [done|]. unfold bucket. by rewrite Hf. }
  congruence.
Qed.

(** C2, as amended. For every GET request that no item of any cache
    matches, the fetch handler asks the network and leaves the storage as
    it is.  When the network answers, that response is returned to the
    caller and a put of its copy under the request is started, not awaited.
    When that put runs, on whatever storage there is by then, and the host
    accepts it (an http(s) URL, a status other than 206, no [Vary: *]), the
    response is in the bucket under the request, and the same request is
    then answered with it from the cache, without a network call, provided
    no other cache holds a match. *)
Theorem fetch_uncached_is_fetched_and_stored net request cs :
  method request = "GET" →
  caches_match request cs = None →
  let o := run (on_fetch net request) cs in
  NetFetch request ∈ log o ∧ final o = cs ∧
  ∀ res, net request = Some res →
    o = mkOutcome (inr (Some res))
          [RespondWith; NetFetch request; StartPut request res] cs ∧
    ∀ cs1, put_refused request res = false →
      let cs2 := final (run (put_task request res) cs1) in
      (request, res) ∈ bucket cs2 ∧
      (only_bucket_matches request cs1 →
       ∀ net', run (on_fetch net' request) cs2 =
                 mkOutcome (inr (Some res)) [RespondWith] cs2).
Proof.
  intros Hm Hc o. split; [|split; [apply final_fetch|]].
  - unfold o. destruct (net request) as [res|] eqn:Hn.
    + rewrite (run_fetch_miss _ _ _ _ Hm Hc Hn). simpl. set_solver.
    + rewrite (run_fetch_offline _ _ _ Hm Hc Hn). simpl. set_solver.
  - intros res Hn. split; [by apply run_fetch_miss|].
    intros cs1 Hok cs2. split.
    + by destruct (put_then_hit net request res cs1 Hok) as (? & _).
    + intros Hother net'.
      destruct (put_then_hit net' request res cs1 Hok) as (_ & _ & H). by apply H.
Qed.

(** C4. For every request whose method is not GET the fetch handler returns
    before [respondWith]: it makes no host call at all and leaves the cache
    storage, hence the bucket, as it was. *)
Theorem fetch_non_GET_is_not_intercepted net request cs :
  method request ≠ "GET" →
  let o := run (on_fetch net request) cs in
  value o = inr None ∧ (RespondWith ∉ log o) ∧ log o = [] ∧ final o = cs.
Proof.
  intros Hm o. unfold o. rewrite (run_fetch_not_GET _ _ _ Hm). simpl.
  repeat split. apply not_elem_of_nil.
Qed.


End Fetch.

(** ** The install handler *)

Section Install.

Variable self : Location.

Implicit Types (cs : CacheStorage) (net : Network).

(** A failed install adds no item. *)
Lemma bucket_after_failed_install net cs :
  value (run (on_install self net) cs) ≠ inr () →
  bucket (final (run (on_install self net) cs)) = bucket cs.
Proof.
  intros Hko. rewrite final_install.
  destruct (forallb _ _) eqn:E; [|apply bucket_open].
  by apply install_succeeds_iff with (cs := cs) in E.
Qed.

(** Every item of an accepted batch is matched by its own request. *)
Lemma assets_self_matched net (urls : list string) (item : Request * Response) :
  forallb accepted_by_addAll (assets_answers self net urls) = true →
  item ∈ items_of (assets_answers self net urls) →
  matches item.1 item = true.
Proof.
  intros Hok Hin. destruct item as [q r].
  apply elem_of_items_of in Hin. unfold assets_answers in Hin.
  apply list_elem_of_fmap in Hin as (q' & [= <- Hr] & Hq).
  apply list_elem_of_fmap in Hq as (a & -> & Ha).
  destruct (proj1 (accepted_answers self net urls) Hok a Ha) as (r' & Hr' & _ & _ & Hv).
  assert (r' = r) as -> by congruence.
  by apply matches_self.
Qed.

(** The bucket after a successful install, in closed form. *)
Lemma bucket_after_install_closed net cs :
  value (run (on_install self net) cs) = inr () →
  bucket (final (run (on_install self net) cs)) =
    filter (unmatched_by (items_of (assets_answers self net ASSETS))) (bucket cs) ++
    items_of (assets_answers self net ASSETS).
Proof.
  intros (Hok & ->)%bucket_after_install.
  rewrite <- (app_nil_r (bucket cs)) at 1.
  by rewrite (stored_closed_form _ _ [] (assets_no_conflict self net)).
Qed.

(** C3, as amended. After the install handler has completed successfully,
    the URLs with an entry in the cache bucket are exactly those of [ASSETS]
    together with those the bucket held before the install; they are exactly
    those of [ASSETS] when the bucket was absent or empty before. *)
Theorem install_adds_the_assets net cs :
  value (run (on_install self net) cs) = inr () →
  let cs' := final (run (on_install self net) cs) in
  cached_urls (bucket cs') =
    list_to_set (asset_url self <$> ASSETS) ∪ cached_urls (bucket cs) ∧
  (bucket cs = [] → cached_urls (bucket cs') = list_to_set (asset_url self <$> ASSETS)).
Proof.
  intros (Hok & E)%bucket_after_install cs'. unfold cs'. rewrite E.
  rewrite stored_urls, (items_of_urls _ _ _ Hok).
  split; [done|]. intros ->. unfold cached_urls. simpl. set_solver.
Qed.

End Install.

(** ** The push handler *)

Section Push.

Implicit Types (cs : CacheStorage) (v d : JSValue) (k : string).

Lemma js_or_falsy v d : falsy v = true → js_or v d = d.
Proof. unfold falsy, js_or. by destruct (truthy v). Qed.

Lemma js_or_truthy v d : truthy v = true → js_or v d = v.
Proof. unfold js_or. by intros ->. Qed.

(** A field that is absent is [undefined], which is falsy. *)
Lemma get_prop_absent props k :
  own_prop k props = None → get_prop (JObj props) k = inr JUndefined.
Proof. simpl. by intros ->. Qed.

(** Defaults are per field and by falsiness: a field that is absent or holds
    a falsy value gives the default, a field with a truthy value is kept. *)
Lemma field_or_spec v k d :
  v ≠ JNull → v ≠ JUndefined →
  ∃ x, get_prop v k = inr x ∧
       field_or v k d = (if truthy x then x else d).
Proof.
  intros Hn Hu. unfold field_or.
  destruct v; try done; eexists; (split; [reflexivity|]); reflexivity.
Qed.

(** Every payload that parses to something else than [null] gives one
    notification, with the defaults applied field by field. *)
Lemma push_defaults_per_field v cs :
  v ≠ JNull → v ≠ JUndefined →
  run (on_push (Some (mkPushData (Some v)))) cs =
    mkOutcome (inr ())
      [ShowNotification
         {| n_title := field_or v "title" (JStr "BailSaaS");
            n_body := field_or v "body" (JStr "");
            n_data := JObj [("url", field_or v "url" (JStr "/"))];
            n_icon := "/static/icons/icon-192.png";
            n_badge := "/static/icons/icon-192.png" |}]
      cs.
Proof. intros Hn Hu. by apply (run_push_object (Some (mkPushData (Some v)))). Qed.

(** C5. A push event whose payload parses as
    [{"title":"T","body":"B","url":"/x"}] shows exactly one notification,
    with title "T", body "B" and "/x" stored as its click target; a click on
    it with no window open opens a window at "/x". *)
Theorem push_payload_T_B_x cs :
  let payload := JObj [("title", JStr "T"); ("body", JStr "B"); ("url", JStr "/x")] in
  let shown := {| n_title := JStr "T";
                  n_body := JStr "B";
                  n_data := JObj [("url", JStr "/x")];
                  n_icon := "/static/icons/icon-192.png";
                  n_badge := "/static/icons/icon-192.png" |} in
  run (on_push (Some (mkPushData (Some payload)))) cs =
    mkOutcome (inr ()) [ShowNotification shown] cs ∧
  log (run (on_notificationclick [] shown) cs) =
    [CloseNotification; OpenWindow (JStr "/x")].
Proof. split; reflexivity. Qed.

(** C6. For every push event whose payload does not parse as JSON, the
    handler does not fail: it shows one notification with title "BailSaaS",
    empty body and click target "/". *)
Theorem push_unparsable_payload_uses_defaults (e_data : PushMessageData) cs :
  json e_data = None →
  run (on_push (Some e_data)) cs =
    mkOutcome (inr ())
      [ShowNotification
         {| n_title := JStr "BailSaaS";
            n_body := JStr "";
            n_data := JObj [("url", JStr "/")];
            n_icon := "/static/icons/icon-192.png";
            n_badge := "/static/icons/icon-192.png" |}]
      cs.
Proof.
  intros Hj. rewrite run_push_object; unfold payload_of; rewrite Hj; done.
Qed.

(** A push event without any payload gets the same defaults: reading
    [e.data.json] throws inside the [try]. *)
Lemma push_without_payload_uses_defaults cs :
  log (run (on_push None) cs) =
    [ShowNotification
       {| n_title := JStr "BailSaaS";
          n_body := JStr "";
          n_data := JObj [("url", JStr "/")];
          n_icon := "/static/icons/icon-192.png";
          n_badge := "/static/icons/icon-192.png" |}].
Proof. reflexivity. Qed.

(** C10, at the payload [null]. The payload parses, none of its fields is
    present, and the handler throws a [TypeError] when it reads [data.title]:
    no notification is shown. *)
Theorem push_null_payload_throws cs :
  let o := run (on_push (Some (mkPushData (Some JNull)))) cs in
  value o = inl TypeError ∧ (∀ n, ShowNotification n ∉ log o) ∧ final o = cs.
Proof.
  intros o. unfold o.
  rewrite (run_push_null (Some (mkPushData (Some JNull))) cs); [|by left].
  cbn [value log final]. split; [done|]. split; [|done].
  intros n. apply not_elem_of_nil.
Qed.

End Push.

(** ** The click handler *)

Section Click.

Implicit Types (cs : CacheStorage) (c : Client) (clients : list Client)
  (n : Notification).

Lemma first_focusable_Some target (l : list Client) c :
  first_focusable target l = Some c →
  c ∈ l ∧ strict_eq_string (client_url c) target = true ∧ has_focus c = true.
Proof.
  induction l as [|c0 l IH]; simpl; [done|].
  destruct (strict_eq_string (client_url c0) target && has_focus c0) eqn:E.
  - intros [= <-]. apply andb_true_iff in E as [? ?]. split; [left | done].
  - intros H. destruct (IH H) as (? & ? & ?). split; [by right | done].
Qed.

Lemma first_focusable_None target (l : list Client) :
  first_focusable target l = None →
  ∀ c, c ∈ l → has_focus c = true → strict_eq_string (client_url c) target = false.
Proof.
  induction l as [|c0 l IH]; simpl; intros H c Hc Hf; [by apply elem_of_nil in Hc|].
  destruct (strict_eq_string (client_url c0) target && has_focus c0) eqn:E; [done|].
  apply elem_of_cons in Hc as [-> | Hc]; [|by apply IH].
  rewrite Hf, andb_true_r in E. exact E.
Qed.

(** Every client that [matchAll] hands over has a [focus] method. *)
Lemma matchAll_window_has_focus clients c :
  c ∈ matchAll_window clients → c ∈ clients ∧ has_focus c = true.
Proof. unfold matchAll_window. by intros [? ?]%list_elem_of_filter. Qed.

Lemma run_click clients n cs target :
  get_prop_opt (n_data n) "url" = inr target →
  run (on_notificationclick clients n) cs =
    mkOutcome (inr ())
      [CloseNotification;
       match first_focusable (js_or target (JStr "/")) (matchAll_window clients) with
       | Some c => Focus c
       | None => OpenWindow (js_or target (JStr "/"))
       end]
      cs.
Proof.
  intros Ht. unfold run, on_notificationclick, mbind, SW_bind, emit, lift.
  cbn [value log final]. rewrite Ht. cbn [value log final].
  by destruct (first_focusable _ _).
Qed.

(** When a window client has exactly the target string as its URL, the
    first such client is focused and no window is opened. *)
Lemma click_focuses_identical_url clients n cs (s : string) c :
  n_data n = JObj [("url", JStr s)] → s ≠ "" →
  c ∈ matchAll_window clients → client_url c = s →
  ∃ c', c' ∈ clients ∧ client_url c' = s ∧
        log (run (on_notificationclick clients n) cs) = [CloseNotification; Focus c'].
Proof.
  intros Hd Hs Hc Hu.
  assert (js_or (JStr s) (JStr "/") = JStr s) as Hor.
  { apply js_or_truthy. simpl. apply String.eqb_neq in Hs. by rewrite Hs. }
  rewrite (run_click clients n cs (JStr s)); [|by rewrite Hd; simpl].
  rewrite Hor. simpl.
  destruct (first_focusable (JStr s) (matchAll_window clients)) as [c'|] eqn:E.
  - apply first_focusable_Some in E as (Hin & Heq & _).
    apply matchAll_window_has_focus in Hin as [Hin _].
    exists c'. simpl in Heq. apply String.eqb_eq in Heq. done.
  - pose proof (matchAll_window_has_focus _ _ Hc) as [_ Hf].
    pose proof (first_focusable_None _ _ E c Hc Hf) as Hne.
    simpl in Hne. apply String.eqb_neq in Hne. done.
Qed.

(** When no client has exactly the target string as its URL, a window is
    opened with the target string. *)
Lemma click_opens_window_otherwise clients n cs (s : string) :
  n_data n = JObj [("url", JStr s)] → s ≠ "" →
  (∀ c, c ∈ clients → client_url c ≠ s) →
  log (run (on_notificationclick clients n) cs) =
    [CloseNotification; OpenWindow (JStr s)].
Proof.
  intros Hd Hs Hall.
  assert (js_or (JStr s) (JStr "/") = JStr s) as Hor.
  { apply js_or_truthy. simpl. apply String.eqb_neq in Hs. by rewrite Hs. }
  rewrite (run_click clients n cs (JStr s)); [|by rewrite Hd; simpl].
  rewrite Hor. simpl.
  destruct (first_focusable (JStr s) (matchAll_window clients)) as [c'|] eqn:E; [|done].
  apply first_focusable_Some in E as (Hin & Heq & _).
  apply matchAll_window_has_focus in Hin as [Hin _].
  simpl in Heq. apply String.eqb_eq in Heq. by destruct (Hall c' Hin).
Qed.

(** A target that is not written as an absolute URL never gets a window
    focused: the URLs of clients are absolute, so none of them is the target
    string, whichever page the target resolves to. *)
Lemma click_never_focuses_for_relative_target (resolve : string → string)
    clients n cs (s : string) :
  n_data n = JObj [("url", JStr s)] → s ≠ "" →
  (∀ c, c ∈ clients → resolve (client_url c) = client_url c) →
  resolve s ≠ s →
  log (run (on_notificationclick clients n) cs) =
    [CloseNotification; OpenWindow (JStr s)].
Proof.
  intros Hd Hs Habs Hrel. apply click_opens_window_otherwise; [done..|].
  intros c Hc E. apply Hrel. rewrite <- E. by apply Habs.
Qed.

(** C7, at the target "/x" with one window of the site open on [/x]. The
    URL of the window is the absolute URL that "/x" resolves to, the
    comparison [c.url === url] is with the string "/x" itself, so the window
    is not focused and a second window is opened. *)
Theorem click_relative_target_opens_second_window :
  client_url Example.window_x = Example.resolve "/x" ∧
  Example.window_x ∈ matchAll_window [Example.window_x] ∧
  run (on_notificationclick [Example.window_x] Example.shown_T_B_x) [] =
    mkOutcome (inr ()) [CloseNotification; OpenWindow (JStr "/x")] [].
Proof.
  split; [reflexivity|]. split; [|reflexivity].
  apply list_elem_of_filter. split; [reflexivity | left].
Qed.

End Click.

(** ** No handler prunes the bucket *)

Section NoPruning.

Variable self : Location.

Implicit Types (cs : CacheStorage) (q : Request) (r : Response).

(** Only the fetch handler starts a put. *)
Lemma dispatch_started h ev cs q r :
  StartPut q r ∈ log (run (dispatch self h ev) cs) →
  ev = FetchEvent q ∧ caches_match q cs = None.
Proof.
  destruct ev as [| |request|data|n]; cbn [dispatch].
  - destruct (forallb accepted_by_addAll (assets_answers self (net h) ASSETS)) eqn:E.
    + rewrite (run_install_ok _ _ _ E). cbn [log].
      intros [[=] | (q' & [=] & _)%list_elem_of_fmap]%elem_of_cons.
    + rewrite (run_install_rejected _ _ _ E). cbn [log].
      intros [[=] | (q' & [=] & _)%list_elem_of_fmap]%elem_of_cons.
  - unfold run, on_activate, emit. cbn [log].
    by intros [[=] | []%elem_of_nil]%elem_of_cons.
  - rewrite (proj2 (run_void _ _)).
    intros (-> & _ & Hc & _)%fetch_started. done.
  - destruct (log_push data cs) as [-> | [n ->]].
    + by intros []%elem_of_nil.
    + by intros [[=] | []%elem_of_nil]%elem_of_cons.
  - destruct (get_prop_opt_total (n_data n) "url") as [u Hu].
    rewrite (run_click _ _ _ _ Hu). cbn [log].
    intros [[=] | [E | []%elem_of_nil]%elem_of_cons]%elem_of_cons.
    by destruct (first_focusable _ _).
Qed.

(** The put that a fetch event has started keeps, whenever it runs, every
    item that was in a cache when the event was handled: the request missed
    them all. *)
Lemma started_put_keeps_items h ev cs cs1 request copy (item : Request * Response) :
  StartPut request copy ∈ log (run (dispatch self h ev) cs) →
  item ∈ bucket cs →
  item ∈ bucket cs1 →
  item ∈ bucket (final (run (put_task request copy) cs1)).
Proof.
  intros [_ Hc]%dispatch_started (c & Hf & Hin)%bucket_item_found Hin1.
  rewrite bucket_put_task. destruct (put_refused request copy); [done|].
  apply elem_of_replace_matching. left. split; [done|].
  apply find_cache_elem in Hf.
  pose proof (caches_match_None _ _ _ _ Hc Hf) as Hnone.
  by apply (proj1 (cache_match_None _ _) Hnone).
Qed.

(** The install handler keeps every URL of the bucket, and every item whose
    URL is not one of the assets. *)
Lemma install_keeps_items net cs (item : Request * Response) :
  item ∈ bucket cs →
  without_fragment (url item.1) ∈ cached_urls (bucket (final (run (on_install self net) cs))) ∧
  (without_fragment (url item.1) ∉ asset_url self <$> ASSETS →
   item ∈ bucket (final (run (on_install self net) cs))).
Proof.
  intros Hin.
  assert (without_fragment (url item.1) ∈ cached_urls (bucket cs)) as Hu.
  { unfold cached_urls. apply elem_of_list_to_set, list_elem_of_fmap. by exists item. }
  rewrite final_install.
  destruct (forallb _ _) eqn:Hok; [|by rewrite bucket_open].
  rewrite bucket_put_each_open. split.
  - rewrite stored_urls. set_solver.
  - intros Hna. apply stored_keeps_other_urls; [done|].
    by rewrite (items_of_urls _ _ _ Hok).
Qed.

(** C8, as amended. No handler removes a URL from the cache bucket: every
    URL cached before an event is cached after it.  The entry itself, the
    pair of the request and its response, is kept by activate, fetch, push
    and notificationclick, and by install for every URL that is not one of
    [ASSETS]; it is also kept by the put that a fetch event has started,
    whenever that put runs. *)
Theorem handlers_never_prune_the_bucket h ev cs q r :
  (q, r) ∈ bucket cs →
  let cs' := final (run (dispatch self h ev) cs) in
  without_fragment (url q) ∈ cached_urls (bucket cs') ∧
  (ev ≠ Install ∨ without_fragment (url q) ∉ asset_url self <$> ASSETS →
   (q, r) ∈ bucket cs') ∧
  (∀ request copy cs1,
     StartPut request copy ∈ log (run (dispatch self h ev) cs) →
     (q, r) ∈ bucket cs1 →
     (q, r) ∈ bucket (final (run (put_task request copy) cs1))).
Proof.
  intros Hb cs'. unfold cs'. clear cs'.
  split; [|split].
  - destruct (is_install ev) eqn:Hi.
    + destruct ev; try done. cbn [dispatch].
      by destruct (install_keeps_items (net h) cs (q, r) Hb).
    + rewrite final_dispatch_other by done.
      unfold cached_urls. apply elem_of_list_to_set, list_elem_of_fmap. by exists (q, r).
  - intros Hev. destruct (is_install ev) eqn:Hi.
    + destruct ev; try done. cbn [dispatch].
      destruct (install_keeps_items (net h) cs (q, r) Hb) as [_ Hk].
      destruct Hev as [Hne | Hu]; [done | by apply Hk].
    + by rewrite final_dispatch_other.
  - intros request copy cs1 Hs Hin1. by eapply started_put_keeps_items.
Qed.

End NoPruning.

(** ** The properties at concrete inputs *)

Module Witness.

Import Example.

Lemma reachable_installed : reachable site installed_world.
Proof.
  exact (reachable_step site _ (Handle (mkHost online []) Install) (reachable_init site)).
Defined.

Lemma reachable_browsed : reachable site browsed_world.
Proof. exact (reachable_play site _ _ reachable_installed). Defined.

Lemma reachable_greeted : reachable site greeted_world.
Proof. exact (reachable_play site _ _ reachable_installed). Defined.

Lemma reachable_watched : reachable site watched_world.
Proof. exact (reachable_play site _ _ reachable_installed). Defined.


(** C1, as amended, at the first page of the site once the worker is
    installed, with the network down. *)
Lemma fetch_cached_witness :
  method (GET (at_path "/")) = "GET" ∧
  cache_match (GET (at_path "/")) (bucket installed) = Some page ∧
  ∃ cached,
    caches_match (GET (at_path "/")) installed = Some cached ∧
    run (on_fetch offline (GET (at_path "/"))) installed =
      mkOutcome (inr (Some cached)) [RespondWith] installed ∧
    (only_bucket_matches (GET (at_path "/")) installed → cached = page).
Proof.
  assert (cache_match (GET (at_path "/")) (bucket installed) = Some page) as Hb
    by (vm_compute; reflexivity).
  exact (conj eq_refl (conj Hb
    (fetch_cached_is_served_from_cache offline (GET (at_path "/")) installed page
       eq_refl Hb))).
Defined.

(** C1 as stated fails for a URL that is in the bucket with a response that
    varies on a header: the greeting was cached for a request in French,
    the request in English has the same URL, and the handler asks the
    network. *)
Lemma cached_url_in_other_language_goes_to_network :
  reachable site greeted_world ∧
  ((GET_fr, bonjour) ∈ bucket (caches greeted_world)) ∧
  method GET_en = "GET" ∧
  url GET_en = url GET_fr ∧
  run (on_fetch online GET_en) (caches greeted_world) =
    mkOutcome (inr (Some hello)) [RespondWith; NetFetch GET_en; StartPut GET_en hello]
      (caches greeted_world).
Proof.
  split; [exact reachable_greeted|].
  split; [vm_compute; set_solver|].
  split; [reflexivity|]. split; [reflexivity|].
  vm_compute. reflexivity.
Qed.

(** C2, as amended, at a page that is not cached after the install. *)
Lemma fetch_uncached_witness :
  method (GET (at_path "/other")) = "GET" ∧
  caches_match (GET (at_path "/other")) installed = None ∧
  let o := run (on_fetch online (GET (at_path "/other"))) installed in
  NetFetch (GET (at_path "/other")) ∈ log o ∧ final o = installed ∧
  ∀ res, online (GET (at_path "/other")) = Some res →
    o = mkOutcome (inr (Some res))
          [RespondWith; NetFetch (GET (at_path "/other"));
           StartPut (GET (at_path "/other")) res] installed ∧
    ∀ cs1, put_refused (GET (at_path "/other")) res = false →
      let cs2 := final (run (put_task (GET (at_path "/other")) res) cs1) in
      (GET (at_path "/other"), res) ∈ bucket cs2 ∧
      (only_bucket_matches (GET (at_path "/other")) cs1 →
       ∀ net', run (on_fetch net' (GET (at_path "/other"))) cs2 =
                 mkOutcome (inr (Some res)) [RespondWith] cs2).
Proof.
  assert (caches_match (GET (at_path "/other")) installed = None) as Hc
    by (vm_compute; reflexivity).
  exact (conj eq_refl (conj Hc
    (fetch_uncached_is_fetched_and_stored online (GET (at_path "/other")) installed
       eq_refl Hc))).
Defined.

(** C2 as stated fails at a response with status 206: the video is not in
    the bucket, the handler fetches it and returns the part, the put runs
    and is refused, and the bucket is as before, so that the same request
    goes to the network again. *)
Lemma partial_response_is_returned_but_not_stored :
  reachable site watched_world ∧
  (at_path "/video" ∉ cached_urls (bucket installed)) ∧
  run (on_fetch online (GET (at_path "/video"))) installed =
    mkOutcome (inr (Some partial))
      [RespondWith; NetFetch (GET (at_path "/video"));
       StartPut (GET (at_path "/video")) partial] installed ∧
  watched_world = mkWorld installed [] ∧
  run (on_fetch online (GET (at_path "/video"))) (caches watched_world) =
    mkOutcome (inr (Some partial))
      [RespondWith; NetFetch (GET (at_path "/video"));
       StartPut (GET (at_path "/video")) partial] installed.
Proof.
  split; [exact reachable_watched|].
  split; [apply (bool_decide_unpack _); vm_compute; exact I|].
  repeat split; vm_compute; reflexivity.
Qed.

(** Two visits that overlap: both miss, both puts run, and the second put
    replaces the item of the first, with no install in between. *)
Lemma overlapping_fetches_replace_the_item :
  reachable site overlapped_world ∧
  bucket (caches overlapped_world) =
    bucket installed ++ [(GET (at_path "/other"), page_v2)] ∧
  pending overlapped_world = [].
Proof.
  split; [exact (reachable_play site _ _ reachable_installed)|].
  split; vm_compute; reflexivity.
Qed.

(** C4 at a POST request. *)
Lemma fetch_non_GET_witness :
  method (mkRequest "POST" (at_path "/login") []) ≠ "GET" ∧
  let o := run (on_fetch online (mkRequest "POST" (at_path "/login") [])) installed in
  value o = inr None ∧ (RespondWith ∉ log o) ∧ log o = [] ∧ final o = installed.
Proof.
  assert (method (mkRequest "POST" (at_path "/login") []) ≠ "GET") as Hm
    by (simpl; discriminate).
  exact (conj Hm (fetch_non_GET_is_not_intercepted online
                    (mkRequest "POST" (at_path "/login") []) installed Hm)).
Defined.



(** C3, as amended, at the first install. *)
Lemma install_witness :
  value (run (on_install site online) []) = inr () ∧
  let cs' := final (run (on_install site online) []) in
  cached_urls (bucket cs') =
    list_to_set (asset_url site <$> ASSETS) ∪ cached_urls (bucket []) ∧
  (bucket [] = [] → cached_urls (bucket cs') = list_to_set (asset_url site <$> ASSETS)).
Proof.
  assert (value (run (on_install site online) []) = inr ()) as Hok
    by (vm_compute; reflexivity).
  exact (conj Hok (install_adds_the_assets site online [] Hok)).
Defined.

(** C3 as stated fails when the worker is installed again over a bucket that
    the fetch handler has filled: the install succeeds and the bucket still
    holds [/other], which is not an asset. *)
Lemma install_over_used_bucket_holds_more :
  reachable site browsed_world ∧
  value (run (on_install site online) browsed) = inr () ∧
  (GET (at_path "/other"), not_found)
    ∈ bucket (final (run (on_install site online) browsed)) ∧
  at_path "/other" ∉ asset_url site <$> ASSETS.
Proof.
  split; [exact reachable_browsed|].
  split; [vm_compute; reflexivity|].
  split; [vm_compute; set_solver|].
  apply (bool_decide_unpack _). vm_compute. exact I.
Qed.

(** C6 at a payload that is not JSON. *)
Lemma push_unparsable_witness :
  json (mkPushData None) = None ∧
  run (on_push (Some (mkPushData None))) [] =
    mkOutcome (inr ())
      [ShowNotification
         {| n_title := JStr "BailSaaS";
            n_body := JStr "";
            n_data := JObj [("url", JStr "/")];
            n_icon := "/static/icons/icon-192.png";
            n_badge := "/static/icons/icon-192.png" |}]
      [].
Proof.
  split; [reflexivity|].
  exact (push_unparsable_payload_uses_defaults (mkPushData None) [] eq_refl).
Defined.

(** C8, as amended, at a fetch of [/other] after the install: the entry of
    the first page stays, also when the put of that fetch runs. *)
Lemma never_prune_witness :
  (GET (at_path "/"), page) ∈ bucket installed ∧
  let ev := FetchEvent (GET (at_path "/other")) in
  let cs' := final (run (dispatch site (mkHost online []) ev) installed) in
  without_fragment (url (GET (at_path "/"))) ∈ cached_urls (bucket cs') ∧
  (ev ≠ Install ∨
   without_fragment (url (GET (at_path "/"))) ∉ asset_url site <$> ASSETS →
   (GET (at_path "/"), page) ∈ bucket cs') ∧
  (∀ request copy cs1,
     StartPut request copy ∈ log (run (dispatch site (mkHost online []) ev) installed) →
     (GET (at_path "/"), page) ∈ bucket cs1 →
     (GET (at_path "/"), page) ∈ bucket (final (run (put_task request copy) cs1))).
Proof.
  assert ((GET (at_path "/"), page) ∈ bucket installed) as Hb
    by (vm_compute; left).
  exact (conj Hb (handlers_never_prune_the_bucket site (mkHost online [])
                    (FetchEvent (GET (at_path "/other"))) installed
                    (GET (at_path "/")) page Hb)).
Defined.

(** C8 as stated fails at a second install after the site has changed its
    first page: the pair of [/] and the old page is replaced by the pair of
    [/] and the new page. *)
Lemma install_replaces_asset_entries :
  reachable site installed_world ∧
  (GET (at_path "/"), page) ∈ bucket installed ∧
  ((GET (at_path "/"), page)
     ∉ bucket (final (run (dispatch site (mkHost redeployed []) Install) installed))) ∧
  (GET (at_path "/"), page_v2)
    ∈ bucket (final (run (dispatch site (mkHost redeployed []) Install) installed)).
Proof.
  split; [exact reachable_installed|].
  split; [vm_compute; left|].
  split; [apply (bool_decide_unpack _); vm_compute; exact I|].
  vm_compute. set_solver.
Qed.

End Witness.

(** ** Further properties of the install handler *)

Section InstallMore.

Variable self : Location.

Implicit Types (cs : CacheStorage) (c : Cache) (net : Network).

(** The batch of an install answers a request for the URL of an asset with
    what the network gave for that asset, when the request agrees with it
    on the headers it varies on. *)
Lemma cache_match_asset_items net (urls : list string) a request r :
  forallb accepted_by_addAll (assets_answers self net urls) = true →
  a ∈ urls →
  method request = "GET" →
  without_fragment (url request) = asset_url self a →
  net (asset_request self a) = Some r →
  vary_agrees request (asset_request self a) r = true →
  cache_match request (items_of (assets_answers self net urls)) = Some r.
Proof.
  intros Hok Ha Hm Hu Hr Hv. apply String.eqb_eq in Hm.
  unfold assets_answers, items_of. induction urls as [|a0 urls IH].
  { by apply elem_of_nil in Ha. }
  cbn [fmap list_fmap forallb omap list_omap] in *.
  apply andb_true_iff in Hok as [H0 Hok].
  unfold accepted_by_addAll in H0. cbn [fst snd] in *.
  destruct (net (asset_request self a0)) as [r0|] eqn:E0; [|done].
  cbn [fmap option_fmap option_map cache_match snd].
  destruct (decide (a = a0)) as [-> | Hne].
  - assert (r0 = r) as -> by congruence.
    unfold matches. cbn [fst snd]. rewrite Hm, Hv, bool_decide_eq_true_2; [done|].
    by rewrite Hu.
  - assert (matches request (asset_request self a0, r0) = false) as ->.
    { unfold matches. cbn [fst]. rewrite bool_decide_eq_false_2; [by rewrite andb_false_r|].
      rewrite Hu. cbn [asset_request url]. rewrite asset_url_without_fragment.
      intros H. by apply asset_url_inj in H. }
    apply elem_of_cons in Ha as [? | Ha]; [done|]. by apply IH.
Qed.

(** No item that a batch has left in place is matched by a request that
    missed before the batch. *)
Lemma cache_match_unmatched request (items c : Cache) :
  cache_match request c = None →
  cache_match request (filter (unmatched_by items) c) = None.
Proof.
  rewrite !cache_match_None. intros H item [_ Hin]%list_elem_of_filter. by apply H.
Qed.

(** X1. The install completes successfully exactly when the network
    answers the request for every asset with a response that [addAll]
    accepts: a status in the 200 range other than 206, and no [Vary: *]. *)
Theorem install_succeeds_iff_every_asset_is_ok net cs :
  value (run (on_install self net) cs) = inr () ↔
  ∀ a, a ∈ ASSETS →
    ∃ r, net (asset_request self a) = Some r ∧
         ok r = true ∧ status r ≠ 206%Z ∧ "*" ∉ vary r.
Proof.
  rewrite install_succeeds_iff. apply accepted_answers.
Qed.

(** X2. An install that does not complete successfully rejects with a
    [TypeError] and adds no entry: the bucket exists afterwards, with
    exactly the entries it had before. *)
Theorem failed_install_adds_nothing net cs :
  value (run (on_install self net) cs) ≠ inr () →
  let o := run (on_install self net) cs in
  value o = inl TypeError ∧
  find_cache CACHE (final o) = Some (bucket cs) ∧
  bucket (final o) = bucket cs.
Proof.
  intros Hko o. unfold o.
  destruct (forallb accepted_by_addAll (assets_answers self net ASSETS)) eqn:E.
  - destruct Hko. by apply install_succeeds_iff.
  - rewrite (run_install_rejected _ _ _ E). cbn [value final].
    split; [done|]. split; [apply find_bucket_open | apply bucket_open].
Qed.

(** X3. After a successful install every asset URL holds the response the
    network has just given for it, an ok response, whatever the bucket held
    under that URL before: the pair is in the bucket, and the bucket answers
    the request for the asset with it. *)
Theorem install_stores_the_network_answers net cs a :
  value (run (on_install self net) cs) = inr () →
  a ∈ ASSETS →
  let cs' := final (run (on_install self net) cs) in
  ∃ r, net (asset_request self a) = Some r ∧ ok r = true ∧
       (asset_request self a, r) ∈ bucket cs' ∧
       cache_match (asset_request self a) (bucket cs') = Some r.
Proof.
  intros Hok Ha cs'. unfold cs'.
  rewrite (bucket_after_install_closed _ _ _ Hok).
  apply install_succeeds_iff in Hok.
  destruct (proj1 (accepted_answers self net ASSETS) Hok a Ha) as (r & Hr & Hokr & _ & Hv).
  assert ((asset_request self a, r) ∈ items_of (assets_answers self net ASSETS)) as Hin.
  { apply elem_of_items_of. unfold assets_answers.
    apply list_elem_of_fmap. exists (asset_request self a).
    split; [by rewrite Hr | by apply list_elem_of_fmap_2]. }
  exists r. split; [done|]. split; [done|]. split.
  - apply elem_of_app. by right.
  - rewrite cache_match_app.
    assert (cache_match (asset_request self a)
              (filter (unmatched_by (items_of (assets_answers self net ASSETS)))
                 (bucket cs)) = None) as ->.
    { apply cache_match_None. intros item [Hu _]%list_elem_of_filter.
      unfold unmatched_by in Hu.
      by apply (proj1 (existsb_false _ _) Hu (asset_request self a, r)). }
    apply (cache_match_asset_items net ASSETS a); try done.
    pose proof (matches_self (asset_request self a) r eq_refl Hv) as Hself.
    unfold matches in Hself. by apply andb_true_iff in Hself as [_ ?].
Qed.

(** X4. The install asks the network for every asset, in the order of
    [ASSETS], whatever the cache holds and whether or not it succeeds: its
    host calls are [skipWaiting] and one GET per asset. *)
Theorem install_always_asks_the_network net cs :
  log (run (on_install self net) cs) =
    SkipWaiting :: (NetFetch <$> (asset_request self <$> ASSETS)) ∧
  ∀ q, NetFetch q ∈ log (run (on_install self net) cs) →
       method q = "GET" ∧ ∃ a, a ∈ ASSETS ∧ url q = asset_url self a.
Proof.
  assert (log (run (on_install self net) cs) =
            SkipWaiting :: (NetFetch <$> (asset_request self <$> ASSETS))) as E.
  { destruct (forallb accepted_by_addAll (assets_answers self net ASSETS)) eqn:E.
    - by rewrite (run_install_ok _ _ _ E).
    - by rewrite (run_install_rejected _ _ _ E). }
  split; [exact E|]. intros q. rewrite E.
  intros [[=] | Hq]%elem_of_cons.
  apply list_elem_of_fmap in Hq as (q' & [= <-] & Hq').
  apply list_elem_of_fmap in Hq' as (a & -> & Ha).
  split; [done|]. by exists a.
Qed.

(** X5. Installing again with the same network changes nothing: the second
    install succeeds as the first did and leaves the bucket as the first
    install left it. *)
Theorem reinstall_with_same_network_is_idempotent net cs :
  value (run (on_install self net) cs) = inr () →
  let cs' := final (run (on_install self net) cs) in
  value (run (on_install self net) cs') = inr () ∧
  bucket (final (run (on_install self net) cs')) = bucket cs'.
Proof.
  intros Hok cs'.
  assert (value (run (on_install self net) cs') = inr ()) as Hok'
    by by apply install_succeeds_iff; apply install_succeeds_iff in Hok.
  split; [exact Hok'|].
  rewrite (bucket_after_install_closed _ _ _ Hok'). unfold cs'.
  rewrite (bucket_after_install_closed _ _ _ Hok).
  apply install_succeeds_iff in Hok.
  set (items := items_of (assets_answers self net ASSETS)).
  rewrite filter_app.
  rewrite (filter_all (unmatched_by items) (filter (unmatched_by items) (bucket cs))).
  - rewrite (filter_none (unmatched_by items) items); [by rewrite app_nil_r|].
    intros item Hin Hu. unfold unmatched_by in Hu.
    pose proof (proj1 (existsb_false _ _) Hu item Hin) as Hno. simpl in Hno.
    by rewrite (assets_self_matched self net ASSETS item Hok Hin) in Hno.
  - by intros item [Hu _]%list_elem_of_filter.
Qed.

End InstallMore.

(** ** Further properties of the fetch handler *)

Section FetchMore.

Implicit Types (cs : CacheStorage) (c : Cache) (net : Network) (request : Request).

(** X6. [caches.match] looks in every cache, not only in the bucket: a GET
    request that matches an item of any cache, under whatever name, is
    answered with a match from a cache, without a network call and without
    a put. *)
Theorem fetch_is_served_from_any_cache net request cs (name : string) c :
  method request = "GET" →
  (name, c) ∈ cs →
  is_Some (cache_match request c) →
  ∃ cached name' c',
    (name', c') ∈ cs ∧ cache_match request c' = Some cached ∧
    run (on_fetch net request) cs = mkOutcome (inr (Some cached)) [RespondWith] cs.
Proof.
  intros Hm Hin Hu.
  destruct (caches_match_is_Some request cs name c Hin Hu) as [cached Hc].
  destruct (caches_match_Some _ _ _ Hc) as (name' & c' & Hin' & Hcu).
  exists cached, name', c'. split; [done|]. split; [done|]. by apply run_fetch_hit.
Qed.

(** X7. A fetch event changes the bucket at no other URL than the one of
    its request: the handler itself changes nothing, the only put it starts
    is for its own request, and that put, whenever it runs, leaves the items
    of every other URL as they are. *)
Theorem fetch_touches_only_its_own_url net request cs (item : Request * Response) :
  without_fragment (url item.1) ≠ without_fragment (url request) →
  (item ∈ bucket (final (run (on_fetch net request) cs)) ↔ item ∈ bucket cs) ∧
  ∀ q copy cs1,
    StartPut q copy ∈ log (run (on_fetch net request) cs) →
    q = request ∧
    (item ∈ bucket (final (run (put_task q copy) cs1)) ↔ item ∈ bucket cs1).
Proof.
  intros Hne. split; [by rewrite final_fetch|].
  intros q copy cs1 (-> & _)%fetch_started. split; [done|].
  rewrite bucket_put_task. destruct (put_refused request copy); [done|].
  rewrite elem_of_replace_matching. split.
  - intros [[? _] | ->]; [done|]. by destruct Hne.
  - intros Hin. left. split; [done|].
    destruct (matches request item) eqn:E; [|done].
    destruct Hne. by rewrite (matches_same_url _ _ E).
Qed.

(** X8. A failure of the network is not cached. When a GET request misses
    every cache and the network fails, the promise handed to [respondWith]
    rejects, no put is started and the storage is as before; the same
    request asks the network again, and is answered once the network is
    back. *)
Theorem fetch_failure_is_not_cached net net' request cs res :
  method request = "GET" →
  caches_match request cs = None →
  net request = None →
  net' request = Some res →
  let o := run (on_fetch net request) cs in
  o = mkOutcome (inl TypeError) [RespondWith; NetFetch request] cs ∧
  run (on_fetch net' request) (final o) =
    mkOutcome (inr (Some res))
      [RespondWith; NetFetch request; StartPut request res] cs.
Proof.
  intros Hm Hc Hn Hn' o. unfold o.
  rewrite (run_fetch_offline _ _ _ Hm Hc Hn). cbn [final].
  split; [done|]. by apply run_fetch_miss.
Qed.

Variable self : Location.

Lemma elem_of_put_each_other (name n : string) (items : Cache) cs c :
  (n, c) ∈ put_each name items cs → n ≠ name → (n, c) ∈ cs.
Proof.
  unfold put_each. revert cs.
  induction items as [|[q r] items IH]; intros cs Hin Hne; [done|].
  simpl in Hin. apply (elem_of_batch_put_other name n q r); [|done]. by apply IH.
Qed.

(** X9. Once the install has succeeded, a GET request for the URL of an
    asset that missed every cache before the install is answered from the
    cache with the response stored at install time, whatever the network
    does then, provided the request has the same values as the request of
    the install for the headers that response varies on. *)
Theorem installed_assets_are_served_offline net net' cs a request :
  value (run (on_install self net) cs) = inr () →
  a ∈ ASSETS →
  method request = "GET" →
  without_fragment (url request) = asset_url self a →
  caches_match request cs = None →
  let cs' := final (run (on_install self net) cs) in
  ∃ r, net (asset_request self a) = Some r ∧
       (vary_agrees request (asset_request self a) r = true →
        run (on_fetch net' request) cs' = mkOutcome (inr (Some r)) [RespondWith] cs').
Proof.
  intros Hok Ha Hm Hu Hc cs'.
  pose proof (proj1 (install_succeeds_iff self net cs) Hok) as Hacc.
  destruct (proj1 (accepted_answers self net ASSETS) Hacc a Ha) as (r & Hr & _).
  exists r. split; [done|]. intros Hv.
  apply run_fetch_hit; [done|]. apply only_bucket_matches_hit.
  - intros name c Hin Hne. apply (caches_match_None request cs name c Hc).
    unfold cs' in Hin. rewrite final_install, Hacc in Hin.
    apply (elem_of_caches_open_other CACHE); [|done].
    by apply (elem_of_put_each_other CACHE name _ _ _ Hin).
  - unfold cs'. rewrite (bucket_after_install_closed _ _ _ Hok), cache_match_app.
    rewrite cache_match_unmatched; [by apply cache_match_asset_items with (a := a)|].
    unfold bucket. destruct (find_cache CACHE cs) as [c|] eqn:Hf; [|done].
    apply (caches_match_None request cs CACHE c Hc). by apply find_cache_elem.
Qed.

End FetchMore.

(** ** What the handlers leave alone *)

Section Frame.

Variable self : Location.

Implicit Types (cs : CacheStorage) (h : Host) (ev : Event) (w : World).

(** X10. The worker writes to no other cache than its bucket: whatever the
    event, a cache of another name is after the event as it was before, and
    the put that a fetch event starts leaves it alone as well. *)
Theorem handlers_leave_other_caches_alone h ev cs (name : string) :
  name ≠ CACHE →
  find_cache name (final (run (dispatch self h ev) cs)) = find_cache name cs ∧
  ∀ request copy cs1,
    find_cache name (final (run (put_task request copy) cs1)) = find_cache name cs1.
Proof.
  intros Hne. split.
  - destruct (is_install ev) eqn:Hi.
    + destruct ev; try done. cbn [dispatch]. rewrite final_install.
      destruct (forallb _ _).
      * by rewrite find_cache_put_each_ne, find_cache_open_ne.
      * by rewrite find_cache_open_ne.
    + by rewrite final_dispatch_other.
  - intros request copy cs1. by apply find_cache_put_task_other.
Qed.

(** X11. The activate, push and notificationclick handlers leave the whole
    cache storage as it is, never ask the network and start no put. *)
Theorem notification_events_touch_neither_cache_nor_network h ev cs :
  is_install ev = false → (∀ request, ev ≠ FetchEvent request) →
  let o := run (dispatch self h ev) cs in
  final o = cs ∧ (∀ q, NetFetch q ∉ log o) ∧ (∀ q r, StartPut q r ∉ log o).
Proof.
  intros Hi Hf o. unfold o. clear o.
  split; [by apply final_dispatch_other|]. split.
  - destruct ev as [| |request|data|n]; cbn [dispatch].
    + discriminate Hi.
    + intros q [[=] | []%elem_of_nil]%elem_of_cons.
    + by destruct (Hf request).
    + intros q. destruct (log_push data cs) as [-> | [n ->]].
      * apply not_elem_of_nil.
      * intros [[=] | []%elem_of_nil]%elem_of_cons.
    + intros q. destruct (get_prop_opt_total (n_data n) "url") as [u Hu].
      rewrite (run_click _ _ _ _ Hu). cbn [log].
      intros [[=] | [E | []%elem_of_nil]%elem_of_cons]%elem_of_cons.
      by destruct (first_focusable _ _).
  - intros q r [-> _]%dispatch_started. by destruct (Hf q).
Qed.

(** One step keeps every URL of the bucket. *)
Lemma step_keeps_urls s w :
  cached_urls (bucket (caches w)) ⊆ cached_urls (bucket (caches (step self s w))).
Proof.
  destruct s as [h ev | i]; cbn [step caches].
  - destruct (is_install ev) eqn:Hi.
    + destruct ev; try done. cbn [dispatch]. rewrite final_install.
      destruct (forallb _ _).
      * rewrite bucket_put_each_open, stored_urls. set_solver.
      * by rewrite bucket_open.
    + by rewrite final_dispatch_other.
  - destruct (pending w !! i) as [[q r]|]; [|done].
    cbn [caches]. rewrite bucket_put_task. destruct (put_refused q r); [done|].
    apply cached_urls_replace_subseteq.
Qed.

(** X12. Over any sequence of events and of puts that run, with any network
    and clients at each event, a URL that is cached stays cached: the set of
    cached URLs only grows. *)
Theorem cached_urls_stay_cached trace w :
  cached_urls (bucket (caches w)) ⊆ cached_urls (bucket (caches (play self trace w))).
Proof.
  revert w. induction trace as [|s trace IH]; intros w; [done|].
  simpl. etrans; [apply (step_keeps_urls s)|apply IH].
Qed.

(** X15. In every world the worker reaches from an empty cache storage, the
    bucket is the only cache, so [caches.match] is a match in the bucket. *)
Theorem worker_only_ever_has_its_bucket w (query : Request) :
  reachable self w →
  (∀ name c, (name, c) ∈ caches w → name = CACHE ∧ c = bucket (caches w)) ∧
  (List.length (caches w) ≤ 1)%nat ∧
  caches_match query (caches w) = cache_match query (bucket (caches w)).
Proof.
  intros Hr%reachable_sole_bucket. split; [|split].
  - destruct Hr as [-> | [c0 ->]]; intros name c Hin.
    + by apply elem_of_nil in Hin.
    + apply list_elem_of_singleton in Hin as [= -> ->]. done.
  - destruct Hr as [-> | [c0 ->]]; simpl; lia.
  - by apply sole_bucket_match.
Qed.

End Frame.

(** ** Further properties of the notification handlers *)

Section Notifications.

Implicit Types (cs : CacheStorage) (v d : JSValue) (clients : list Client)
  (n : Notification).

(** With a truthy default, [x || d] is truthy. *)
Lemma js_or_truthy_default v d : truthy d = true → truthy (js_or v d) = true.
Proof. intros Hd. unfold js_or. by destruct (truthy v) eqn:E. Qed.

Lemma field_or_truthy_default v (k : string) d :
  truthy d = true → truthy (field_or v k d) = true.
Proof.
  intros Hd. unfold field_or. destruct (get_prop v k); [done|].
  by apply js_or_truthy_default.
Qed.

(** X16. For every payload that parses to a value other than [null], the
    push handler shows exactly one notification and applies the defaults
    field by field: a title, body or url that is present and truthy is
    passed on as it is, one that is absent or falsy is replaced by
    "BailSaaS", the empty string or "/". *)
Theorem push_applies_defaults_field_by_field v cs :
  v ≠ JNull → v ≠ JUndefined →
  ∃ t b u,
    get_prop v "title" = inr t ∧ get_prop v "body" = inr b ∧ get_prop v "url" = inr u ∧
    run (on_push (Some (mkPushData (Some v)))) cs =
      mkOutcome (inr ())
        [ShowNotification
           {| n_title := if truthy t then t else JStr "BailSaaS";
              n_body := if truthy b then b else JStr "";
              n_data := JObj [("url", if truthy u then u else JStr "/")];
              n_icon := "/static/icons/icon-192.png";
              n_badge := "/static/icons/icon-192.png" |}]
        cs.
Proof.
  intros Hn Hu.
  destruct (field_or_spec v "title" (JStr "BailSaaS") Hn Hu) as (t & Ht & Et).
  destruct (field_or_spec v "body" (JStr "") Hn Hu) as (b & Hb & Eb).
  destruct (field_or_spec v "url" (JStr "/") Hn Hu) as (u & Hu' & Eu).
  exists t, b, u. repeat (split; [done|]).
  rewrite (run_push_object (Some (mkPushData (Some v))) cs); [|done..].
  change (payload_of (Some (mkPushData (Some v)))) with v. by rewrite Et, Eb, Eu.
Qed.

(** X17. The click target makes the round trip. Whatever the push event,
    when the push handler shows a notification its data is an object whose
    [url] is truthy, and a click on that notification uses exactly this
    value as target: the fallback "/" of the click handler is never taken
    for a notification the worker has shown. *)
Theorem click_uses_the_target_push_stored e_data clients cs cs' n :
  log (run (on_push e_data) cs) = [ShowNotification n] →
  ∃ target,
    n_data n = JObj [("url", target)] ∧ truthy target = true ∧
    run (on_notificationclick clients n) cs' =
      mkOutcome (inr ())
        [CloseNotification;
         match first_focusable target (matchAll_window clients) with
         | Some c => Focus c
         | None => OpenWindow target
         end]
        cs'.
Proof.
  intros Hlog.
  assert (payload_of e_data ≠ JNull ∧ payload_of e_data ≠ JUndefined) as [Hn Hu].
  { split; intros E; rewrite run_push_null in Hlog; auto; discriminate Hlog. }
  rewrite run_push_object in Hlog; [|done..].
  cbn [log] in Hlog. injection Hlog as <-.
  set (target := field_or (payload_of e_data) "url" (JStr "/")).
  assert (truthy target = true) as Ht by by apply field_or_truthy_default.
  exists target. split; [done|]. split; [done|].
  rewrite (run_click clients _ cs' target); [|done].
  by rewrite (js_or_truthy _ _ Ht).
Qed.


(** X19. A click on a notification that carries no usable target (no data
    at all, data without [url], or a falsy [url]) does not fail: the target
    is "/", and a window is opened at "/" unless a client has exactly the
    string "/" as its URL. *)
Theorem click_without_target_opens_root clients n cs u :
  get_prop_opt (n_data n) "url" = inr u →
  truthy u = false →
  (∀ c, c ∈ clients → client_url c ≠ "/") →
  run (on_notificationclick clients n) cs =
    mkOutcome (inr ()) [CloseNotification; OpenWindow (JStr "/")] cs.
Proof.
  intros Hu Hf Hall. rewrite (run_click clients n cs u Hu).
  rewrite js_or_falsy; [|unfold falsy; by rewrite Hf].
  destruct (first_focusable (JStr "/") (matchAll_window clients)) as [c|] eqn:E; [|done].
  apply first_focusable_Some in E as (Hin & Heq & _).
  apply matchAll_window_has_focus in Hin as [Hin _].
  simpl in Heq. apply String.eqb_eq in Heq. by destruct (Hall c Hin).
Qed.

End Notifications.


(** ** The further properties at concrete inputs *)

Module MoreWitness.

Import Example.

(** X2 at an install with the network down. *)
Lemma failed_install_witness :
  value (run (on_install site offline) browsed) ≠ inr () ∧
  let o := run (on_install site offline) browsed in
  value o = inl TypeError ∧
  find_cache CACHE (final o) = Some (bucket browsed) ∧
  bucket (final o) = bucket browsed.
Proof.
  assert (value (run (on_install site offline) browsed) ≠ inr ()) as Hko
    by (vm_compute; discriminate).
  exact (conj Hko (failed_install_adds_nothing site offline browsed Hko)).
Defined.

(** X3 at the first install, for the first page. *)
Lemma install_stores_witness :
  value (run (on_install site online) []) = inr () ∧
  "/" ∈ ASSETS ∧
  let cs' := final (run (on_install site online) []) in
  ∃ r, online (asset_request site "/") = Some r ∧ ok r = true ∧
       (asset_request site "/", r) ∈ bucket cs' ∧
       cache_match (asset_request site "/") (bucket cs') = Some r.
Proof.
  assert (value (run (on_install site online) []) = inr ()) as Hok
    by (vm_compute; reflexivity).
  assert ("/" ∈ ASSETS) as Ha by (unfold ASSETS; constructor).
  exact (conj Hok (conj Ha (install_stores_the_network_answers site online [] "/" Hok Ha))).
Defined.

(** X5 at a second install after a first one and a visit. *)
Lemma reinstall_witness :
  value (run (on_install site online) browsed) = inr () ∧
  let cs' := final (run (on_install site online) browsed) in
  value (run (on_install site online) cs') = inr () ∧
  bucket (final (run (on_install site online) cs')) = bucket cs'.
Proof.
  assert (value (run (on_install site online) browsed) = inr ()) as Hok
    by (vm_compute; reflexivity).
  exact (conj Hok (reinstall_with_same_network_is_idempotent site online browsed Hok)).
Defined.

(** X6 at a storage with a cache of another name that holds the page. *)
Lemma served_from_old_cache_witness :
  method (GET (at_path "/old")) = "GET" ∧
  ("bailsaas-v0", [(GET (at_path "/old"), page)]) ∈ with_old_cache ∧
  is_Some (cache_match (GET (at_path "/old")) [(GET (at_path "/old"), page)]) ∧
  ∃ cached name' c',
    (name', c') ∈ with_old_cache ∧
    cache_match (GET (at_path "/old")) c' = Some cached ∧
    run (on_fetch offline (GET (at_path "/old"))) with_old_cache =
      mkOutcome (inr (Some cached)) [RespondWith] with_old_cache.
Proof.
  assert (("bailsaas-v0", [(GET (at_path "/old"), page)]) ∈ with_old_cache) as Hin
    by (unfold with_old_cache; left).
  assert (is_Some (cache_match (GET (at_path "/old")) [(GET (at_path "/old"), page)])) as Hu
    by (exists page; vm_compute; reflexivity).
  exact (conj eq_refl (conj Hin (conj Hu
    (fetch_is_served_from_any_cache offline (GET (at_path "/old"))
       with_old_cache "bailsaas-v0" _ eq_refl Hin Hu)))).
Defined.

(** X7 at a visit of [/other]: the entry of the first page is as before. *)
Lemma fetch_frame_witness :
  without_fragment (url (GET (at_path "/"), page).1)
    ≠ without_fragment (url (GET (at_path "/other"))) ∧
  ((GET (at_path "/"), page)
     ∈ bucket (final (run (on_fetch online (GET (at_path "/other"))) installed)) ↔
   (GET (at_path "/"), page) ∈ bucket installed) ∧
  ∀ q copy cs1,
    StartPut q copy ∈ log (run (on_fetch online (GET (at_path "/other"))) installed) →
    q = GET (at_path "/other") ∧
    ((GET (at_path "/"), page) ∈ bucket (final (run (put_task q copy) cs1)) ↔
     (GET (at_path "/"), page) ∈ bucket cs1).
Proof.
  assert (without_fragment (url (GET (at_path "/"), page).1)
            ≠ without_fragment (url (GET (at_path "/other")))) as Hne
    by (vm_compute; discriminate).
  exact (conj Hne (fetch_touches_only_its_own_url online
                     (GET (at_path "/other")) installed _ Hne)).
Defined.

(** X8 at a visit of [/other] with the network down, then up. *)
Lemma fetch_failure_witness :
  method (GET (at_path "/other")) = "GET" ∧
  caches_match (GET (at_path "/other")) installed = None ∧
  offline (GET (at_path "/other")) = None ∧
  online (GET (at_path "/other")) = Some not_found ∧
  let o := run (on_fetch offline (GET (at_path "/other"))) installed in
  o = mkOutcome (inl TypeError) [RespondWith; NetFetch (GET (at_path "/other"))] installed ∧
  run (on_fetch online (GET (at_path "/other"))) (final o) =
    mkOutcome (inr (Some not_found))
      [RespondWith; NetFetch (GET (at_path "/other"));
       StartPut (GET (at_path "/other")) not_found] installed.
Proof.
  assert (caches_match (GET (at_path "/other")) installed = None) as Hc
    by (vm_compute; reflexivity).
  exact (conj eq_refl (conj Hc (conj eq_refl (conj eq_refl
    (fetch_failure_is_not_cached offline online (GET (at_path "/other"))
       installed not_found eq_refl Hc eq_refl eq_refl))))).
Defined.

(** X9 at the manifest, after the first install, for a request with a
    fragment and with the network down. *)
Lemma offline_asset_witness :
  let request := mkRequest "GET" (mkURL "https" "example.com"
                   "/static/manifest.webmanifest" (Some "icons")) [] in
  value (run (on_install site online) []) = inr () ∧
  "/static/manifest.webmanifest" ∈ ASSETS ∧
  method request = "GET" ∧
  without_fragment (url request) = asset_url site "/static/manifest.webmanifest" ∧
  caches_match request [] = None ∧
  let cs' := final (run (on_install site online) []) in
  ∃ r, online (asset_request site "/static/manifest.webmanifest") = Some r ∧
       (vary_agrees request (asset_request site "/static/manifest.webmanifest") r = true →
        run (on_fetch offline request) cs' = mkOutcome (inr (Some r)) [RespondWith] cs').
Proof.
  intros request.
  assert (value (run (on_install site online) []) = inr ()) as Hok
    by (vm_compute; reflexivity).
  assert ("/static/manifest.webmanifest" ∈ ASSETS) as Ha
    by (unfold ASSETS; do 2 constructor).
  exact (conj Hok (conj Ha (conj eq_refl (conj eq_refl (conj eq_refl
    (installed_assets_are_served_offline site online offline [] _ request
       Hok Ha eq_refl eq_refl eq_refl)))))).
Defined.

(** X10 at an install over a storage with a cache of another name. *)
Lemma other_cache_witness :
  "bailsaas-v0" ≠ CACHE ∧
  find_cache "bailsaas-v0"
    (final (run (dispatch site (mkHost online []) Install) with_old_cache))
    = find_cache "bailsaas-v0" with_old_cache ∧
  ∀ request copy cs1,
    find_cache "bailsaas-v0" (final (run (put_task request copy) cs1))
    = find_cache "bailsaas-v0" cs1.
Proof.
  assert ("bailsaas-v0" ≠ CACHE) as Hne by (unfold CACHE; discriminate).
  exact (conj Hne (handlers_leave_other_caches_alone site (mkHost online []) Install
                     with_old_cache "bailsaas-v0" Hne)).
Defined.

(** X11 at a push event without payload. *)
Lemma push_frame_witness :
  is_install (PushEvent None) = false ∧
  (∀ request, PushEvent None ≠ FetchEvent request) ∧
  let o := run (dispatch site (mkHost online []) (PushEvent None)) installed in
  final o = installed ∧ (∀ q, NetFetch q ∉ log o) ∧ (∀ q r, StartPut q r ∉ log o).
Proof.
  assert (∀ request, PushEvent None ≠ FetchEvent request) as Hf
    by (intros request; discriminate).
  exact (conj eq_refl (conj Hf
    (notification_events_touch_neither_cache_nor_network site (mkHost online [])
       (PushEvent None) installed eq_refl Hf))).
Defined.

(** X15 at the world after the first install. *)
Lemma only_bucket_witness :
  reachable site installed_world ∧
  (∀ name c, (name, c) ∈ caches installed_world →
             name = CACHE ∧ c = bucket (caches installed_world)) ∧
  (List.length (caches installed_world) ≤ 1)%nat ∧
  caches_match (GET (at_path "/")) (caches installed_world) =
    cache_match (GET (at_path "/")) (bucket (caches installed_world)).
Proof.
  exact (conj Witness.reachable_installed
    (worker_only_ever_has_its_bucket site installed_world (GET (at_path "/"))
       Witness.reachable_installed)).
Defined.

(** X16 at a payload with a title and an empty body. *)
Lemma push_defaults_witness :
  title_only ≠ JNull ∧ title_only ≠ JUndefined ∧
  ∃ t b u,
    get_prop title_only "title" = inr t ∧ get_prop title_only "body" = inr b ∧
    get_prop title_only "url" = inr u ∧
    run (on_push (Some (mkPushData (Some title_only)))) [] =
      mkOutcome (inr ())
        [ShowNotification
           {| n_title := if truthy t then t else JStr "BailSaaS";
              n_body := if truthy b then b else JStr "";
              n_data := JObj [("url", if truthy u then u else JStr "/")];
              n_icon := "/static/icons/icon-192.png";
              n_badge := "/static/icons/icon-192.png" |}]
        [].
Proof.
  assert (title_only ≠ JNull) as Hn by (unfold title_only; discriminate).
  assert (title_only ≠ JUndefined) as Hu by (unfold title_only; discriminate).
  exact (conj Hn (conj Hu (push_applies_defaults_field_by_field title_only [] Hn Hu))).
Defined.

(** X17 at the notification shown for the payload
    [{"title":"T","body":"B","url":"/x"}], clicked with a window on [/x]
    open. *)
Lemma round_trip_witness :
  log (run (on_push (Some (mkPushData (Some
         (JObj [("title", JStr "T"); ("body", JStr "B"); ("url", JStr "/x")]))))) [])
    = [ShowNotification shown_T_B_x] ∧
  ∃ target,
    n_data shown_T_B_x = JObj [("url", target)] ∧ truthy target = true ∧
    run (on_notificationclick [window_x] shown_T_B_x) installed =
      mkOutcome (inr ())
        [CloseNotification;
         match first_focusable target (matchAll_window [window_x]) with
         | Some c => Focus c
         | None => OpenWindow target
         end]
        installed.
Proof.
  exact (conj eq_refl
    (click_uses_the_target_push_stored
       (Some (mkPushData (Some
          (JObj [("title", JStr "T"); ("body", JStr "B"); ("url", JStr "/x")]))))
       [window_x] [] installed shown_T_B_x eq_refl)).
Defined.

(** X19 at a notification without data. *)
Lemma click_without_data_witness :
  get_prop_opt (n_data no_data) "url" = inr JUndefined ∧
  truthy JUndefined = false ∧
  (∀ c, c ∈ [window_x] → client_url c ≠ "/") ∧
  run (on_notificationclick [window_x] no_data) [] =
    mkOutcome (inr ()) [CloseNotification; OpenWindow (JStr "/")] [].
Proof.
  assert (∀ c, c ∈ [window_x] → client_url c ≠ "/") as Hall.
  { intros c Hc. apply list_elem_of_singleton in Hc. subst c.
    vm_compute. discriminate. }
  exact (conj eq_refl (conj eq_refl (conj Hall
    (click_without_target_opens_root [window_x] no_data [] JUndefined
       eq_refl eq_refl Hall)))).
Defined.

End MoreWitness.
